(** * Experiment harness utilities (src/utils.py)

    A shallow embedding of the data pipeline of [utils.py]: loading the CMC
    table, splitting it, discretising continuous attributes, scoring
    predictions and running the baseline classifiers.

    Python objects that the code shares and updates in place (dicts, data
    frames, series) live in an explicit object store; exceptions are values
    of [exn]; the numeric cells of a table are rationals, which stand for
    the floating-point values of the libraries (no statement below depends
    on rounding of an arithmetic operation). *)

From Stdlib Require Import QArith ZArith Lia Ascii String.
From stdpp Require Import base option list strings gmap.
Close Scope Q_scope.

(** ** Exceptions *)

Inductive exn :=
| KeyError
| ValueError
| TypeError
| UnboundLocalError (name : string)
| RecursionError
| FileNotFoundError
| EmptyDataError
| ParserError
| LibraryError.

(** Pure computations that may raise. *)
Definition res (A : Type) : Type := exn + A.

Definition rbind {A B} (m : res A) (f : A -> res B) : res B :=
  match m with inl e => inl e | inr a => f a end.

Notation "'do' x <- m ; k" := (rbind m (fun x => k))
  (at level 10, x name, m at level 100, k at level 200).

(** ** Tables *)

(** A column label: a name, or a position when the file had no header. *)
Inductive label := Name (s : string) | Pos (n : nat).

#[global] Instance label_eq_dec : EqDecision label.
Proof. solve_decision. Defined.

#[global] Instance Q_eq_dec : EqDecision Q.
Proof. solve_decision. Defined.

(** A cell is a number or NaN ([None]). *)
Definition cell := option Q.

Record DataFrame := {
  f_index : list Z;                      (* row labels *)
  f_columns : list (label * list cell)   (* columns, left to right *)
}.

Record Series := {
  s_index : list Z;
  s_name : option label;
  s_values : list cell
}.

Definition columns (f : DataFrame) : list label := (f_columns f).*1.

Definition n_rows (f : DataFrame) : nat := length (f_index f).

(** [df.drop(l, axis=1)]: every column labelled [l] goes; none is an error. *)
Definition drop_label (l : label) (f : DataFrame) : res DataFrame :=
  if bool_decide (l ∈ columns f)
  then inr {| f_index := f_index f;
              f_columns := filter (fun c => c.1 <> l) (f_columns f) |}
  else inl KeyError.

(** [df[[l1, ..., lk]]]: the columns with these labels, in the order asked. *)
Fixpoint pick_columns (ls : list label) (cs : list (label * list cell))
  : res (list (label * list cell)) :=
  match ls with
  | [] => inr []
  | l :: ls' =>
      match filter (fun c => c.1 = l) cs with
      | [] => inl KeyError
      | found => do rest <- pick_columns ls' cs; inr (found ++ rest)
      end
  end.

Definition getitem_list (ls : list label) (f : DataFrame) : res DataFrame :=
  do cs <- pick_columns ls (f_columns f);
  inr {| f_index := f_index f; f_columns := cs |}.

(** [df[l]]: a series when one column has the label, a table when several. *)
Definition getitem (l : label) (f : DataFrame) : res (Series + DataFrame) :=
  match filter (fun c => c.1 = l) (f_columns f) with
  | [] => inl KeyError
  | [c] => inr (inl {| s_index := f_index f; s_name := Some l; s_values := c.2 |})
  | cs => inr (inr {| f_index := f_index f; f_columns := cs |})
  end.

(** Positional row selection ([iloc]); positions are in range by construction
    of the callers, a missing one reads as NaN. *)
Definition take_positions {A} (d : A) (idx : list nat) (xs : list A) : list A :=
  map (fun i => default d (xs !! i)) idx.

Definition take_rows (idx : list nat) (f : DataFrame) : DataFrame :=
  {| f_index := take_positions 0%Z idx (f_index f);
     f_columns := map (fun c => (c.1, take_positions None idx c.2)) (f_columns f) |}.

(** [df[l] = values]: overwrite every column labelled [l], or append one. *)
Definition set_column (l : label) (vs : list cell) (f : DataFrame) : DataFrame :=
  {| f_index := f_index f;
     f_columns :=
       if bool_decide (l ∈ columns f)
       then map (fun c => if bool_decide (c.1 = l) then (l, vs) else c) (f_columns f)
       else f_columns f ++ [(l, vs)] |}.

(** [df[[l1, ..., lk]] = array]: column [i] of the array goes to label [i]. *)
Fixpoint set_columns (ls : list label) (vss : list (list cell)) (f : DataFrame)
  : res DataFrame :=
  match ls, vss with
  | [], [] => inr f
  | l :: ls', vs :: vss' =>
      if bool_decide (l ∈ columns f)
      then set_columns ls' vss' (set_column l vs f)
      else inl KeyError
  | _, _ => inl ValueError
  end.

(** Alignment of a column on the row labels of the receiving table: positional
    when the two indexes are equal, by label otherwise (NaN where the label is
    missing; a duplicated source label cannot be aligned). *)
Definition lookup_label (idx : list Z) (vs : list cell) (i : Z) : cell :=
  match list_find (fun j => j = i) idx with
  | Some (p, _) => default None (vs !! p)
  | None => None
  end.

Definition align (target idx : list Z) (vs : list cell) : res (list cell) :=
  if bool_decide (idx = target) then inr vs
  else if bool_decide (NoDup idx) then inr (map (lookup_label idx vs) target)
  else inl ValueError.

(** ** KBinsDiscretizer (uniform strategy, ordinal encoding) *)

(** The fitted edges of one feature: a constant feature gets the single bin
    (-inf, +inf); any other gets [n_bins + 1] equally spaced edges. *)
Inductive bins := Constant | Uniform (edges : list Q).

Fixpoint numeric (cs : list cell) : res (list Q) :=
  match cs with
  | [] => inr []
  | None :: _ => inl ValueError
  | Some q :: cs' => do qs <- numeric cs'; inr (q :: qs)
  end.

Definition Qmin (a b : Q) : Q := if Qle_bool a b then a else b.
Definition Qmax (a b : Q) : Q := if Qle_bool a b then b else a.

Definition linspace (lo hi : Q) (n : nat) : list Q :=
  map (fun i => (lo + inject_Z (Z.of_nat i) * ((hi - lo) / inject_Z (Z.of_nat n)))%Q)
      (seq 0 n) ++ [hi].

Definition fit_column (n : nat) (qs : list Q) : bins :=
  match qs with
  | [] => Constant
  | q :: qs' =>
      let lo := foldr Qmin q qs' in
      let hi := foldr Qmax q qs' in
      if Qeq_bool lo hi then Constant else Uniform (linspace lo hi n)
  end.

(** Input validation of the estimator: a table with at least one row and one
    column and no NaN; the result is the list of its columns. *)
Fixpoint numeric_columns (cs : list (label * list cell)) : res (list (list Q)) :=
  match cs with
  | [] => inr []
  | c :: cs' => do qs <- numeric c.2; do rest <- numeric_columns cs'; inr (qs :: rest)
  end.

Definition check_array (X : DataFrame) : res (list (list Q)) :=
  if bool_decide (n_rows X = 0) then inl ValueError
  else if bool_decide (f_columns X = []) then inl ValueError
  else numeric_columns (f_columns X).

Definition fit (n_bins : Z) (X : DataFrame) : res (list bins) :=
  if bool_decide (n_bins < 2)%Z then inl ValueError
  else do cols <- check_array X;
       inr (map (fit_column (Z.to_nat n_bins)) cols).

(** [np.searchsorted(a, x, side='right')] on ascending [a]. *)
Fixpoint searchsorted_right (a : list Q) (x : Q) : nat :=
  match a with
  | [] => 0
  | e :: a' => if Qle_bool e x then S (searchsorted_right a' x) else 0
  end.

(** The bin of a value: its insertion point among the interior edges. *)
Definition interior (edges : list Q) : list Q := removelast (tail edges).

Definition bin_of (b : bins) (x : Q) : nat :=
  match b with
  | Constant => 0
  | Uniform edges => searchsorted_right (interior edges) x
  end.

Definition transform_column (b : bins) (qs : list Q) : list cell :=
  map (fun x => Some (inject_Z (Z.of_nat (bin_of b x)))) qs.

Fixpoint transform_columns (bs : list bins) (cols : list (list Q)) : res (list (list cell)) :=
  match bs, cols with
  | [], [] => inr []
  | b :: bs', qs :: cols' =>
      do rest <- transform_columns bs' cols'; inr (transform_column b qs :: rest)
  | _, _ => inl ValueError
  end.

Definition transform (bs : list bins) (X : DataFrame) : res (list (list cell)) :=
  do cols <- check_array X; transform_columns bs cols.

(** ** train_test_split (shuffled, not stratified) *)

(** [ceil(0.2 * n)] test rows, the rest for training; the product [0.2 * n]
    in double precision has the ceiling of the exact [n / 5]. An empty
    training set is an error. *)
Definition split_sizes (n : nat) : res (nat * nat) :=
  let n_test := (n + 4) `div` 5 in
  let n_train := n - n_test in
  if bool_decide (n_train = 0) then inl ValueError else inr (n_train, n_test).

Definition split_indices (perm : list nat) (n : nat) : res (list nat * list nat) :=
  do sz <- split_sizes n;
  let ind_test := take sz.2 perm in
  let ind_train := take sz.1 (drop sz.2 perm) in
  inr (ind_train, ind_test).

(** ** Classification metrics *)

(** The averaging modes this repository uses. *)
Inductive average := Micro | Macro.

Definition Qsum (qs : list Q) : Q := foldr Qplus 0%Q qs.

(** A ratio of counts; a zero denominator gives 0 (the library warns). *)
Definition ratio (a b : nat) : Q :=
  if bool_decide (b = 0) then 0%Q else Qmake (Z.of_nat a) (Pos.of_nat b).

Definition count_true (c : Z) (y_true : list Z) : nat :=
  length (filter (fun t => t = c) y_true).

Definition count_pred (c : Z) (y_pred : list Z) : nat :=
  length (filter (fun p => p = c) y_pred).

Definition count_tp (c : Z) (y_true y_pred : list Z) : nat :=
  length (filter (fun tp => tp.1 = c /\ tp.2 = c) (zip y_true y_pred)).

Definition count_correct (y_true y_pred : list Z) : nat :=
  length (filter (fun tp => tp.1 = tp.2) (zip y_true y_pred)).

(** The labels present in either sequence. *)
Definition unique_labels (y_true y_pred : list Z) : list Z :=
  remove_dups (y_true ++ y_pred).

Definition mean (qs : list Q) : Q :=
  (Qsum qs / inject_Z (Z.of_nat (length qs)))%Q.

Inductive score := Precision | Recall | F1.

Definition class_score (s : score) (y_true y_pred : list Z) (c : Z) : Q :=
  let tp := count_tp c y_true y_pred in
  match s with
  | Precision => ratio tp (count_pred c y_pred)
  | Recall => ratio tp (count_true c y_true)
  | F1 => ratio (2 * tp) (count_pred c y_pred + count_true c y_true)
  end.

Definition micro_score (s : score) (y_true y_pred : list Z) : Q :=
  let tp := count_correct y_true y_pred in
  match s with
  | Precision => ratio tp (length y_pred)
  | Recall => ratio tp (length y_true)
  | F1 => ratio (2 * tp) (length y_pred + length y_true)
  end.

(** The targets are checked first: sequences of different lengths are
    rejected; on empty sequences the scores are undefined (NaN). *)
Definition averaged_score (s : score) (avg : average) (y_true y_pred : list Z) : res cell :=
  if bool_decide (length y_true <> length y_pred) then inl ValueError
  else if bool_decide (y_true = []) then inr None
  else match avg with
       | Micro => inr (Some (micro_score s y_true y_pred))
       | Macro => inr (Some (mean (map (class_score s y_true y_pred)
                                       (unique_labels y_true y_pred))))
       end.

Definition accuracy_score (y_true y_pred : list Z) : res cell :=
  if bool_decide (length y_true <> length y_pred) then inl ValueError
  else if bool_decide (y_true = []) then inr None
  else inr (Some (ratio (count_correct y_true y_pred) (length y_true))).

Definition precision_score := averaged_score Precision.
Definition recall_score := averaged_score Recall.
Definition f1_score := averaged_score F1.

(** Rounding to the nearest integer, ties to the even one. *)
Definition round_half_even (q : Q) : Z :=
  let n := Qnum q in
  let d := Z.pos (Qden q) in
  let fl := (n / d)%Z in
  let r := (2 * (n mod d))%Z in
  if bool_decide (r < d)%Z then fl
  else if bool_decide (d < r)%Z then (fl + 1)%Z
  else if Z.even fl then fl else (fl + 1)%Z.

Definition pow10 (p : Z) : positive := Z.to_pos (10 ^ p).

(** [round(x, prec)]: [prec] decimal places, or tens when [prec] is negative. *)
Definition round (x : cell) (prec : Z) : cell :=
  match x with
  | None => None
  | Some q =>
      if bool_decide (0 <= prec)%Z
      then Some (Qmake (round_half_even (q * inject_Z (Z.pos (pow10 prec)))) (pow10 prec))
      else Some (inject_Z (round_half_even (q / inject_Z (Z.pos (pow10 (- prec))))
                           * Z.pos (pow10 (- prec))))
  end.

(** [get_metrics(y_true, y_pred, average='micro', prec=3)] *)
Definition get_metrics (y_true y_pred : list Z) (avg : average) (prec : Z)
  : res (list (string * cell)) :=
  do accuracy <- accuracy_score y_true y_pred;
  do precision <- precision_score avg y_true y_pred;
  do recall <- recall_score avg y_true y_pred;
  do f1 <- f1_score avg y_true y_pred;
  inr [ ("accuracy", round accuracy prec);
        ("precision", round precision prec);
        ("recall", round recall prec);
        ("f1", round f1 prec) ].

Definition default_average : average := Micro.
Definition default_prec : Z := 3.

(** ** The object store *)

Definition loc := nat.

(** The Python objects the code handles: dicts keyed by strings whose values
    are references, data frames and series. *)
Inductive object :=
| ODict (d : gmap string loc)
| OFrame (f : DataFrame)
| OSeries (s : Series).

(** A text file, already cut into records and fields. *)
Definition csv_file := list (list cell).

Record world := {
  heap : list object;               (* the object at each address *)
  stdout : list string;             (* lines printed so far *)
  files : gmap string csv_file      (* the file system, by path *)
}.

Definition set_heap (h : list object) (w : world) : world :=
  {| heap := h; stdout := stdout w; files := files w |}.

(** Stateful computations that may raise. *)
Definition M (A : Type) : Type := world -> world * res A.

#[global] Instance M_ret : MRet M := fun A a w => (w, inr a).
#[global] Instance M_bind : MBind M := fun A B f m w =>
  match m w with
  | (w', inr a) => f a w'
  | (w', inl e) => (w', inl e)
  end.

#[global] Instance M_fmap : FMap M := fun A B f m w =>
  match m w with
  | (w', inr a) => (w', inr (f a))
  | (w', inl e) => (w', inl e)
  end.

Definition raise {A} (e : exn) : M A := fun w => (w, inl e).

Definition lift {A} (r : res A) : M A := fun w => (w, r).

Definition alloc (o : object) : M loc :=
  fun w => (set_heap (heap w ++ [o]) w, inr (length (heap w))).

Definition load (l : loc) : M object :=
  fun w => match heap w !! l with
           | Some o => (w, inr o)
           | None => (w, inl TypeError)
           end.

Definition store (l : loc) (o : object) : M unit :=
  fun w => (set_heap (<[l := o]> (heap w)) w, inr tt).

Definition print (s : string) : M unit :=
  fun w => ({| heap := heap w; stdout := stdout w ++ [s]; files := files w |}, inr tt).

Definition read_file (path : string) : M csv_file :=
  fun w => match files w !! path with
           | Some c => (w, inr c)
           | None => (w, inl FileNotFoundError)
           end.

(** [d[k]] on a dict *)
Definition dict_get (l : loc) (k : string) : M loc :=
  o ← load l;
  match o with
  | ODict d => match d !! k with Some v => mret v | None => raise KeyError end
  | _ => raise TypeError
  end.

(** [d[k] = v] on a dict *)
Definition dict_set (l : loc) (k : string) (v : loc) : M unit :=
  o ← load l;
  match o with
  | ODict d => store l (ODict (<[k := v]> d))
  | _ => raise TypeError
  end.

Definition load_frame (l : loc) : M DataFrame :=
  o ← load l;
  match o with OFrame f => mret f | _ => raise TypeError end.

(** ** copy.deepcopy *)

Definition recursion_limit : nat := 1000.

(** The memo maps every object already met to its copy, so that sharing
    (and cycles) in the source are reproduced in the copy. A dict is created
    empty, recorded in the memo, and then filled key by key. *)
Fixpoint fill_dict (copy : gmap loc loc -> loc -> M (gmap loc loc * loc))
    (target : loc) (items : list (string * loc)) (memo : gmap loc loc)
  : M (gmap loc loc) :=
  match items with
  | [] => mret memo
  | (k, v) :: items' =>
      '(memo', v') ← copy memo v;
      _ ← dict_set target k v';
      fill_dict copy target items' memo'
  end.

Fixpoint deepcopy_rec (fuel : nat) (memo : gmap loc loc) (l : loc)
  : M (gmap loc loc * loc) :=
  match fuel with
  | 0 => raise RecursionError
  | S fuel' =>
      match memo !! l with
      | Some l' => mret (memo, l')
      | None =>
          o ← load l;
          match o with
          | ODict d =>
              l' ← alloc (ODict ∅);
              memo' ← fill_dict (deepcopy_rec fuel') l' (map_to_list d) (<[l := l']> memo);
              mret (memo', l')
          | _ =>
              l' ← alloc o;
              mret (<[l := l']> memo, l')
          end
      end
  end.

Definition deepcopy (l : loc) : M loc :=
  '(_, l') ← deepcopy_rec recursion_limit ∅ l;
  mret l'.

(** ** Library calls on stored objects *)

(** [os.path.join(a, b)] on POSIX paths. *)
Fixpoint ends_with_sep (s : string) : bool :=
  match s with
  | EmptyString => false
  | String c EmptyString => bool_decide (c = "/"%char)
  | String _ s' => ends_with_sep s'
  end.

Definition path_join (a b : string) : string :=
  if String.prefix "/" b then b
  else if bool_decide (a = "") || ends_with_sep a then a +:+ b
  else a +:+ "/" +:+ b.

(** [pd.read_csv(path, header=None)]: the first record fixes the number of
    columns; a longer record is a tokenising error, a shorter one is padded
    with NaN. Columns are labelled by position, rows by [0 .. n-1]. *)
Definition parse_csv (rows : csv_file) : res DataFrame :=
  match rows with
  | [] => inl EmptyDataError
  | first :: _ =>
      let k := length first in
      if bool_decide (Forall (fun r => length r <= k) rows)
      then inr {| f_index := map Z.of_nat (seq 0 (length rows));
                  f_columns :=
                    map (fun j => (Pos j, map (fun r : list cell => default None (r !! j)) rows))
                        (seq 0 k) |}
      else inl ParserError
  end.

Definition read_csv (path : string) : M loc :=
  rows ← read_file path;
  f ← lift (parse_csv rows);
  alloc (OFrame f).

(** [df.columns = names] *)
Definition set_labels (names : list label) (f : DataFrame) : res DataFrame :=
  if bool_decide (length names = length (f_columns f))
  then inr {| f_index := f_index f;
              f_columns := zip names (f_columns f).*2 |}
  else inl ValueError.

(** [df[ls]] on a stored table *)
Definition frame_getitem_list (l : loc) (ls : list label) : M DataFrame :=
  f ← load_frame l; lift (getitem_list ls f).

(** [df[ls] = array] on a stored table *)
Definition frame_setitem_list (l : loc) (ls : list label) (vss : list (list cell)) : M unit :=
  f ← load_frame l;
  f' ← lift (set_columns ls vss f);
  store l (OFrame f').

(** The values a stored object contributes as a single column, with their
    row labels: a series, or a table of exactly one column. *)
Definition as_column (o : object) : res (list Z * list cell) :=
  match o with
  | OSeries s => inr (s_index s, s_values s)
  | OFrame g => match f_columns g with
                | [c] => inr (f_index g, c.2)
                | _ => inl ValueError
                end
  | ODict _ => inl ValueError
  end.

(** [df[name] = value] on a stored table, the value being a stored object *)
Definition frame_setitem (l : loc) (name : label) (value : loc) : M unit :=
  f ← load_frame l;
  o ← load value;
  '(idx, vs) ← lift (as_column o);
  vs' ← lift (align (f_index f) idx vs);
  store l (OFrame (set_column name vs' f)).

(** [df[name]] on a stored table, as a new object *)
Definition frame_getitem (l : loc) (name : label) : M loc :=
  f ← load_frame l;
  r ← lift (getitem name f);
  match r with
  | inl s => alloc (OSeries s)
  | inr g => alloc (OFrame g)
  end.

(** [df.copy(deep=True)] *)
Definition frame_copy (l : loc) : M loc :=
  f ← load_frame l; alloc (OFrame f).

(** [d[k1][k2]] *)
Definition dict_get2 (l : loc) (k1 k2 : string) : M loc :=
  d ← dict_get l k1; dict_get d k2.

(** [d[k1][k2] = v] *)
Definition dict_set2 (l : loc) (k1 k2 : string) (v : loc) : M unit :=
  d ← dict_get l k1; dict_set d k2 v.

(** ** load_data *)

Definition column_names : list label :=
  [ Name "wife_age"; Name "wife_edu"; Name "husband_edu"; Name "n_children";
    Name "wife_religion"; Name "wife_working"; Name "husband_occup";
    Name "sol_index"; Name "media_exposure"; Name "class" ].

Definition load_data (data_dir data_file : string) : M loc :=
  let data_path := path_join data_dir data_file in
  data ← read_csv data_path;
  f ← load_frame data;
  f' ← lift (set_labels column_names f);
  _ ← store data (OFrame f');
  mret data.

(** ** discretize_data *)

Definition discretize_data (data : loc) (continuous_attrs : list label)
    (n_bins : Z) (y_on : string) : M loc :=
  _dataset ← deepcopy data;
  X_train ← dict_get2 _dataset "train" "X";
  X_test ← dict_get2 _dataset "test" "X";
  y_train ← dict_get2 _dataset "train" "y";
  y_test ← dict_get2 _dataset "test" "y";
  if bool_decide (y_on = "class") then
    sel ← frame_getitem_list X_train continuous_attrs;
    est ← lift (fit n_bins sel);
    sel ← frame_getitem_list X_train continuous_attrs;
    arr ← lift (transform est sel);
    _ ← frame_setitem_list X_train continuous_attrs arr;
    sel ← frame_getitem_list X_test continuous_attrs;
    arr ← lift (transform est sel);
    _ ← frame_setitem_list X_test continuous_attrs arr;
    _ ← dict_set2 _dataset "train" "X" X_train;
    _ ← dict_set2 _dataset "test" "X" X_test;
    mret _dataset
  else if bool_decide (y_on = "n_children") then
    train_ds ← frame_copy X_train;
    test_ds ← frame_copy X_test;
    _ ← frame_setitem train_ds (Name "n_children") y_train;
    _ ← frame_setitem test_ds (Name "n_children") y_test;
    sel ← frame_getitem_list train_ds continuous_attrs;
    est ← lift (fit n_bins sel);
    sel ← frame_getitem_list train_ds continuous_attrs;
    arr ← lift (transform est sel);
    _ ← frame_setitem_list train_ds continuous_attrs arr;
    sel ← frame_getitem_list test_ds continuous_attrs;
    arr ← lift (transform est sel);
    _ ← frame_setitem_list test_ds continuous_attrs arr;
    cols ← columns <$> load_frame X_train;
    v ← (frame_getitem_list train_ds cols ≫= fun g => alloc (OFrame g));
    _ ← dict_set2 _dataset "train" "X" v;
    cols ← columns <$> load_frame X_train;
    v ← (frame_getitem_list test_ds cols ≫= fun g => alloc (OFrame g));
    _ ← dict_set2 _dataset "test" "X" v;
    v ← frame_getitem train_ds (Name "n_children");
    _ ← dict_set2 _dataset "train" "y" v;
    v ← frame_getitem test_ds (Name "n_children");
    _ ← dict_set2 _dataset "test" "y" v;
    mret _dataset
  else
    mret _dataset.

(** ** Labels read off a stored target *)

(** The metrics take class labels: integral values, no NaN. *)
Definition integral (c : cell) : res Z :=
  match c with
  | None => inl ValueError
  | Some q =>
      if bool_decide (Qnum q mod Z.pos (Qden q) = 0)%Z
      then inr (Qnum q / Z.pos (Qden q))%Z
      else inl ValueError
  end.

Fixpoint integrals (cs : list cell) : res (list Z) :=
  match cs with
  | [] => inr []
  | c :: cs' => do z <- integral c; do zs <- integrals cs'; inr (z :: zs)
  end.

Definition labels_of (o : object) : res (list Z) :=
  do iv <- as_column o; integrals iv.2.

Section Libraries.

(** [numpy.random.RandomState(seed).permutation(n)] *)
Variable permutation : Z -> nat -> list nat.

(** A scikit-learn classifier: fitting on stored features and target gives
    a fitted model, which predicts one label per row of stored features. *)
Record classifier := {
  fitted : Type;
  clf_fit : object -> object -> res fitted;
  clf_predict : fitted -> object -> res (list Z)
}.

Variable GaussianNB : classifier.
Variable DecisionTreeClassifier : Z -> classifier.

(** [pd.concat(objects, axis=1)] *)
Variable concat : list object -> res DataFrame.

(** [train_test_split(X, y, test_size=0.2, random_state=seed)] *)
Definition train_test_split (X y : DataFrame) (random_state : Z)
  : M (loc * loc * loc * loc) :=
  if bool_decide (n_rows X <> n_rows y) then raise ValueError
  else
    '(ind_train, ind_test) ←
      lift (split_indices (permutation random_state (n_rows X)) (n_rows X));
    X_train ← alloc (OFrame (take_rows ind_train X));
    X_test ← alloc (OFrame (take_rows ind_test X));
    y_train ← alloc (OFrame (take_rows ind_train y));
    y_test ← alloc (OFrame (take_rows ind_test y));
    mret (X_train, X_test, y_train, y_test).

(** ** split_data *)

Definition split_data (data : loc) (y_on : string) : M loc :=
  f ← load_frame data;
  X ← lift (drop_label (Name y_on) f);
  y ← lift (getitem_list [Name y_on] f);
  '(X_train, X_test, y_train, y_test) ← train_test_split X y 42;
  train ← alloc (ODict {[ "X" := X_train; "y" := y_train ]});
  test ← alloc (ODict {[ "X" := X_test; "y" := y_test ]});
  alloc (ODict {[ "train" := train; "test" := test ]}).

(** ** run_scikit_experiment *)

(** The local variable [clf_scikit] is bound on two of the three branches
    only; reading it unbound raises. *)
Definition run_scikit_experiment (data : loc) (clf_label : string)
  : M (list (string * cell)) :=
  X_train ← dict_get2 data "train" "X";
  y_train ← dict_get2 data "train" "y";
  X_test ← dict_get2 data "test" "X";
  y_test ← dict_get2 data "test" "y";
  oX_train ← load X_train;
  oy_train ← load y_train;
  oX_test ← load X_test;
  oy_test ← load y_test;
  train_ds ← lift (concat [oX_train; oy_train]);
  test_ds ← lift (concat [oX_test; oy_test]);
  clf_scikit ←
    (if bool_decide (clf_label = "GaussianNB") then mret (Some GaussianNB)
     else if bool_decide (clf_label = "DecisionTree")
     then mret (Some (DecisionTreeClassifier 42))
     else _ ← print "That model is not available!"; mret None);
  match clf_scikit with
  | None => raise (UnboundLocalError "clf_scikit")
  | Some clf =>
      model ← lift (clf_fit clf oX_train oy_train);
      y_pred ← lift (clf_predict clf model oX_test);
      y_true ← lift (labels_of oy_test);
      lift (get_metrics y_true y_pred Macro default_prec)
  end.

End Libraries.

(** * Reasoning about runs *)

Lemma bind_run {A B} (m : M A) (f : A -> M B) w :
  (m ≫= f) w = match m w with
               | (w', inr a) => f a w'
               | (w', inl e) => (w', inl e)
               end.
Proof. reflexivity. Qed.

Lemma bind_inr {A B} (m : M A) (f : A -> M B) w w' b :
  (m ≫= f) w = (w', inr b) ->
  exists a w1, m w = (w1, inr a) /\ f a w1 = (w', inr b).
Proof.
  rewrite bind_run. destruct (m w) as [w1 [e|a]]; [discriminate|]. eauto.
Qed.

Lemma fmap_inr {A B} (g : A -> B) (m : M A) w w' b :
  (g <$> m) w = (w', inr b) -> exists a, m w = (w', inr a) /\ b = g a.
Proof.
  unfold fmap, M_fmap. destruct (m w) as [w1 [e|a]]; [discriminate|].
  intros [= <- <-]. eauto.
Qed.

Lemma lift_inr {A} (r : res A) w w' a :
  lift r w = (w', inr a) -> w' = w /\ r = inr a.
Proof. unfold lift. intros [= <- ->]. auto. Qed.

Lemma mret_inr {A} (x : A) w w' a :
  (mret x : M A) w = (w', inr a) -> w' = w /\ a = x.
Proof. unfold mret, M_ret. intros [= <- <-]. auto. Qed.

Lemma rbind_inr {A B} (r : res A) (f : A -> res B) b :
  rbind r f = inr b -> exists a, r = inr a /\ f a = inr b.
Proof. destruct r as [e|a]; simpl; [discriminate|eauto]. Qed.

(** ** Frame invariant: the objects that exist before a call are not written *)

Section Frame.

Variable h0 : list object.

Definition ok_obj (o : object) : Prop :=
  match o with
  | ODict d => map_Forall (fun _ v => length h0 <= v) d
  | _ => True
  end.

(** The store extends [h0], and the dicts created since refer to objects
    created since. *)
Definition extends (w : world) : Prop :=
  h0 `prefix_of` heap w /\
  forall l o, length h0 <= l -> heap w !! l = Some o -> ok_obj o.

(** A computation that keeps [extends], whatever its outcome, and whose
    result satisfies [phi]. *)
Definition safe {A} (m : M A) (phi : A -> Prop) : Prop :=
  forall w, extends w ->
    match m w with
    | (w', inr a) => extends w' /\ phi a
    | (w', inl _) => extends w'
    end.

Lemma safe_bind {A B} (m : M A) (f : A -> M B) phi psi :
  safe m phi -> (forall a, phi a -> safe (f a) psi) -> safe (m ≫= f) psi.
Proof.
  intros Hm Hf w Hw. rewrite bind_run. specialize (Hm w Hw).
  destruct (m w) as [w1 [e|a]]; [done|].
  destruct Hm as [Hw1 Ha]. exact (Hf a Ha w1 Hw1).
Qed.

Lemma safe_ret {A} (a : A) (phi : A -> Prop) : phi a -> safe (mret a : M A) phi.
Proof. intros Ha w Hw. done. Qed.

Lemma safe_raise {A} e (phi : A -> Prop) : safe (raise e) phi.
Proof. intros w Hw. done. Qed.

Lemma safe_lift {A} (r : res A) : safe (lift r) (fun _ => True).
Proof. intros w Hw. unfold lift. destruct r; done. Qed.

Lemma safe_weaken {A} (m : M A) (phi psi : A -> Prop) :
  safe m phi -> (forall a, phi a -> psi a) -> safe m psi.
Proof.
  intros Hm Himp w Hw. specialize (Hm w Hw).
  destruct (m w) as [w1 [e|a]]; [done|]. destruct Hm; auto.
Qed.

Lemma safe_fmap {A B} (g : A -> B) (m : M A) phi :
  safe m phi -> safe (g <$> m) (fun _ => True).
Proof.
  intros Hm w Hw. specialize (Hm w Hw). unfold fmap, M_fmap.
  destruct (m w) as [w1 [e|a]]; [done|]. destruct Hm; auto.
Qed.

Lemma safe_alloc o : ok_obj o -> safe (alloc o) (fun l => length h0 <= l).
Proof.
  intros Ho w [Hpre Hcl]. unfold alloc. simpl. split; [split|].
  - by apply prefix_app_r.
  - intros l o' Hl Hlook. cbn in Hlook.
    destruct (decide (l < length (heap w))) as [Hlt|Hge].
    + rewrite lookup_app_l in Hlook by done. eauto.
    + rewrite lookup_app_r in Hlook by lia.
      destruct (l - length (heap w)) as [|n]; simpl in Hlook; [|done].
      by inversion Hlook; subst.
  - by apply prefix_length.
Qed.

Lemma safe_load l : safe (load l) (fun o => length h0 <= l -> ok_obj o).
Proof.
  intros w Hw. unfold load. destruct (heap w !! l) as [o|] eqn:Hl; [|done].
  split; [done|]. intros Hge. destruct Hw as [_ Hcl]. eauto.
Qed.

Lemma safe_store l o :
  length h0 <= l -> ok_obj o -> safe (store l o) (fun _ => True).
Proof.
  intros Hl Ho w [[k Hpre] Hcl]. unfold store. simpl. split; [split|done].
  - exists (<[l - length h0 := o]> k). rewrite Hpre.
    rewrite insert_app_r_alt by done. done.
  - intros l' o' Hl' Hlook. cbn in Hlook.
    destruct (decide (l = l')) as [->|Hne].
    + destruct (decide (l' < length (heap w))) as [Hlt|Hge].
      * rewrite list_lookup_insert_eq in Hlook by done. by inversion Hlook; subst.
      * rewrite list_insert_ge in Hlook by lia. eauto.
    + rewrite list_lookup_insert_ne in Hlook by done. eauto.
Qed.

Lemma safe_dict_get l k :
  length h0 <= l -> safe (dict_get l k) (fun v => length h0 <= v).
Proof.
  intros Hl. unfold dict_get. eapply safe_bind; [apply safe_load|].
  intros [d| |] Ho; try apply safe_raise.
  destruct (d !! k) as [v|] eqn:Hk; [|apply safe_raise].
  apply safe_ret. exact (Ho Hl k v Hk).
Qed.

Lemma safe_dict_set l k v :
  length h0 <= l -> length h0 <= v -> safe (dict_set l k v) (fun _ => True).
Proof.
  intros Hl Hv. unfold dict_set. eapply safe_bind; [apply safe_load|].
  intros [d| |] Ho; try apply safe_raise.
  apply safe_store; [done|]. simpl. apply map_Forall_insert_2; [done|exact (Ho Hl)].
Qed.

Lemma safe_dict_get2 l k1 k2 :
  length h0 <= l -> safe (dict_get2 l k1 k2) (fun v => length h0 <= v).
Proof.
  intros Hl. unfold dict_get2. eapply safe_bind; [by apply safe_dict_get|].
  intros d Hd. by apply safe_dict_get.
Qed.

Lemma safe_dict_set2 l k1 k2 v :
  length h0 <= l -> length h0 <= v -> safe (dict_set2 l k1 k2 v) (fun _ => True).
Proof.
  intros Hl Hv. unfold dict_set2. eapply safe_bind; [by apply safe_dict_get|].
  intros d Hd. by apply safe_dict_set.
Qed.

Lemma safe_load_frame l : safe (load_frame l) (fun _ => True).
Proof.
  unfold load_frame. eapply safe_bind; [apply safe_load|].
  intros [d|f|s] _; try apply safe_raise. by apply safe_ret.
Qed.

Lemma safe_frame_getitem_list l ls : safe (frame_getitem_list l ls) (fun _ => True).
Proof.
  unfold frame_getitem_list. eapply safe_bind; [apply safe_load_frame|].
  intros f _. apply safe_lift.
Qed.

Lemma safe_frame_setitem_list l ls vss :
  length h0 <= l -> safe (frame_setitem_list l ls vss) (fun _ => True).
Proof.
  intros Hl. unfold frame_setitem_list.
  eapply safe_bind; [apply safe_load_frame|]. intros f _.
  eapply safe_bind; [apply safe_lift|]. intros f' _.
  by apply safe_store.
Qed.

Lemma safe_frame_setitem l name value :
  length h0 <= l -> safe (frame_setitem l name value) (fun _ => True).
Proof.
  intros Hl. unfold frame_setitem.
  eapply safe_bind; [apply safe_load_frame|]. intros f _.
  eapply safe_bind; [apply safe_load|]. intros o _.
  eapply safe_bind; [apply safe_lift|]. intros [idx vs] _.
  eapply safe_bind; [apply safe_lift|]. intros vs' _.
  by apply safe_store.
Qed.

Lemma safe_frame_getitem l name :
  safe (frame_getitem l name) (fun v => length h0 <= v).
Proof.
  unfold frame_getitem.
  eapply safe_bind; [apply safe_load_frame|]. intros f _.
  eapply safe_bind; [apply safe_lift|]. intros [s|g] _; by apply safe_alloc.
Qed.

Lemma safe_frame_copy l : safe (frame_copy l) (fun v => length h0 <= v).
Proof.
  unfold frame_copy. eapply safe_bind; [apply safe_load_frame|].
  intros f _. by apply safe_alloc.
Qed.

(** Every copy made by [deepcopy] is a new object. *)
Definition memo_new (memo : gmap loc loc) : Prop :=
  map_Forall (fun _ v => length h0 <= v) memo.

Lemma safe_fill_dict copy target items memo :
  (forall memo l, memo_new memo ->
     safe (copy memo l) (fun r => memo_new r.1 /\ length h0 <= r.2)) ->
  length h0 <= target -> memo_new memo ->
  safe (fill_dict copy target items memo) memo_new.
Proof.
  intros Hcopy Ht. revert memo.
  induction items as [|[k v] items IH]; intros memo Hmemo; simpl.
  - by apply safe_ret.
  - eapply safe_bind; [by apply Hcopy|]. intros [memo' v'] [Hm' Hv']. simpl in *.
    eapply safe_bind; [by apply safe_dict_set|]. intros _ _. by apply IH.
Qed.

Lemma safe_deepcopy_rec fuel memo l :
  memo_new memo ->
  safe (deepcopy_rec fuel memo l) (fun r => memo_new r.1 /\ length h0 <= r.2).
Proof.
  revert memo l. induction fuel as [|fuel IH]; intros memo l Hmemo; simpl.
  - apply safe_raise.
  - destruct (memo !! l) as [l'|] eqn:Hl.
    + apply safe_ret. split; [done|]. exact (Hmemo l l' Hl).
    + eapply safe_bind; [apply safe_load|]. intros o _.
      assert (Hleaf : ok_obj o -> safe
                (l' ← alloc o; mret (<[l:=l']> memo, l'))
                (fun r : gmap loc loc * loc => memo_new r.1 /\ length h0 <= r.2)).
      { intros Ho. eapply safe_bind; [by apply safe_alloc|]. intros l' Hl'.
        apply safe_ret. split; [|done]. by apply map_Forall_insert_2. }
      destruct o as [d|f|s]; [|by apply Hleaf..].
      eapply safe_bind; [apply safe_alloc; apply map_Forall_empty|].
      intros l' Hl'.
      eapply safe_bind.
      * apply safe_fill_dict; [exact IH|done|]. by apply map_Forall_insert_2.
      * intros memo' Hm'. by apply safe_ret.
Qed.

Lemma safe_deepcopy l : safe (deepcopy l) (fun v => length h0 <= v).
Proof.
  unfold deepcopy. eapply safe_bind.
  - apply safe_deepcopy_rec. apply map_Forall_empty.
  - intros [memo l'] [_ Hl']. by apply safe_ret.
Qed.

End Frame.

Ltac safe_step :=
  eapply safe_bind;
  [ first
      [ apply safe_deepcopy
      | apply safe_dict_get2; assumption
      | apply safe_dict_set2; assumption
      | apply safe_frame_getitem_list
      | apply safe_frame_setitem_list; assumption
      | apply safe_frame_setitem; assumption
      | apply safe_frame_getitem
      | apply safe_frame_copy
      | apply safe_lift
      | eapply safe_fmap; apply safe_load_frame
      | eapply safe_bind;
        [ apply safe_frame_getitem_list
        | intros ? _; apply safe_alloc; exact I ] ]
  | intros ? ? ].

Lemma safe_discretize_data h0 data continuous_attrs n_bins y_on :
  safe h0 (discretize_data data continuous_attrs n_bins y_on) (fun _ => True).
Proof.
  unfold discretize_data.
  do 5 safe_step.
  repeat case_bool_decide.
  - repeat safe_step. by apply safe_ret.
  - repeat safe_step. by apply safe_ret.
  - by apply safe_ret.
Qed.

(** C3. [discretize_data] never writes to an object of its caller: whatever
    the split, the continuous columns, the bin count and the target name, and
    whether the call returns or raises, every object that exists before the
    call (so the four tables of the split it was given, and its dicts) is the
    same object with the same content after it. All writes go to the deep
    copy and to objects created during the call. *)
Theorem discretize_data_never_mutates_input
    (w : world) (data : loc) (continuous_attrs : list label) (n_bins : Z)
    (y_on : string) :
  let w' := (discretize_data data continuous_attrs n_bins y_on w).1 in
  heap w `prefix_of` heap w' /\
  forall l o, heap w !! l = Some o -> heap w' !! l = Some o.
Proof.
  intros w'.
  assert (Hpre : heap w `prefix_of` heap w').
  { pose proof (safe_discretize_data (heap w) data continuous_attrs n_bins y_on w) as H.
    unfold w'.
    destruct (discretize_data data continuous_attrs n_bins y_on w) as [w1 [e|r]];
      simpl; apply H; (split; [done|]);
      intros l o Hl Hlook; apply lookup_lt_Some in Hlook; lia. }
  split; [done|].
  intros l o Hl. destruct Hpre as [k ->]. by apply lookup_app_l_Some.
Qed.

(** ** Reading the store *)

(** The dict at [l] maps key [k] to [v]. *)
Definition points (h : list object) (l : loc) (k : string) (v : loc) : Prop :=
  exists d, h !! l = Some (ODict d) /\ d !! k = Some v.

(** [l] is a split: its two partitions are the dicts [a] and [b'], with
    feature tables [x1], [x2] and targets [y1], [y2]. *)
Definition is_split (h : list object) (l a b' x1 y1 x2 y2 : loc) : Prop :=
  points h l "train" a /\ points h l "test" b' /\
  points h a "X" x1 /\ points h a "y" y1 /\
  points h b' "X" x2 /\ points h b' "y" y2.

Lemma bind_step {A B} (m : M A) (f : A -> M B) w w1 a :
  m w = (w1, inr a) -> (m ≫= f) w = f a w1.
Proof. intros H. by rewrite bind_run, H. Qed.

Lemma load_run w l o : heap w !! l = Some o -> load l w = (w, inr o).
Proof. intros H. unfold load. by rewrite H. Qed.

Lemma load_inr w w' l o :
  load l w = (w', inr o) -> w' = w /\ heap w !! l = Some o.
Proof.
  unfold load. destruct (heap w !! l); [|discriminate]. by intros [= <- <-].
Qed.

Lemma dict_get_run w l k v :
  points (heap w) l k v -> dict_get l k w = (w, inr v).
Proof.
  intros (d & Hl & Hk). unfold dict_get.
  rewrite (bind_step _ _ _ _ _ (load_run _ _ _ Hl)). by rewrite Hk.
Qed.

Lemma dict_get_inr w w' l k v :
  dict_get l k w = (w', inr v) -> w' = w /\ points (heap w) l k v.
Proof.
  unfold dict_get. intros H. apply bind_inr in H as (o & w1 & Hload & H).
  apply load_inr in Hload as [-> Hl].
  destruct o as [d| |]; try discriminate.
  destruct (d !! k) as [v'|] eqn:Hk; [|discriminate].
  apply mret_inr in H as [-> ->]. split; [done|]. by exists d.
Qed.

Lemma dict_get2_run w l k1 k2 a v :
  points (heap w) l k1 a -> points (heap w) a k2 v ->
  dict_get2 l k1 k2 w = (w, inr v).
Proof.
  intros H1 H2. unfold dict_get2.
  rewrite (bind_step _ _ _ _ _ (dict_get_run _ _ _ _ H1)). by apply dict_get_run.
Qed.

Lemma dict_get2_inr w w' l k1 k2 v :
  dict_get2 l k1 k2 w = (w', inr v) ->
  w' = w /\ exists a, points (heap w) l k1 a /\ points (heap w) a k2 v.
Proof.
  unfold dict_get2. intros H. apply bind_inr in H as (a & w1 & H1 & H2).
  apply dict_get_inr in H1 as [-> H1]. apply dict_get_inr in H2 as [-> H2]. eauto.
Qed.

(** ** Sample library instances, for concrete runs *)

(** A generator whose permutation of [0 .. n-1] is the reversal. *)
Definition example_permutation (seed : Z) (n : nat) : list nat := reverse (seq 0 n).

(** A classifier that predicts label 0 for every row. *)
Definition example_classifier : classifier :=
  {| fitted := unit;
     clf_fit := fun _ _ => inr tt;
     clf_predict := fun _ X =>
       match X with
       | OFrame f => inr (replicate (n_rows f) 0%Z)
       | _ => inl ValueError
       end |}.

(** Column-wise concatenation of tables that share their row labels. *)
Definition example_concat (os : list object) : res DataFrame :=
  match os with
  | [OFrame f; OFrame g] =>
      if bool_decide (f_index f = f_index g)
      then inr {| f_index := f_index f; f_columns := f_columns f ++ f_columns g |}
      else inl LibraryError
  | _ => inl LibraryError
  end.

(** A small split in an otherwise empty store: three training rows and two
    test rows, features [a] and [b], target [class]. *)
Definition cells (zs : list Z) : list cell := map (fun z => Some (inject_Z z)) zs.

Definition example_heap : list object :=
  [ OFrame {| f_index := [0; 1; 2]%Z;
              f_columns := [(Name "a", cells [0; 10; 4]%Z); (Name "b", cells [1; 1; 1]%Z)] |};
    OFrame {| f_index := [0; 1; 2]%Z; f_columns := [(Name "class", cells [1; 2; 3]%Z)] |};
    OFrame {| f_index := [3; 4]%Z;
              f_columns := [(Name "a", cells [3; 20]%Z); (Name "b", cells [1; 2]%Z)] |};
    OFrame {| f_index := [3; 4]%Z; f_columns := [(Name "class", cells [1; 2]%Z)] |};
    ODict {[ "X" := 0; "y" := 1 ]};
    ODict {[ "X" := 2; "y" := 3 ]};
    ODict {[ "train" := 4; "test" := 5 ]} ].

Definition example_world : world :=
  {| heap := example_heap; stdout := []; files := ∅ |}.

Lemma example_is_split : is_split example_heap 6 4 5 0 1 2 3.
Proof. repeat split; eexists; (split; [reflexivity|]); reflexivity. Qed.

(** C1. With a classifier label other than 'GaussianNB' and 'DecisionTree',
    on a split whose four tables are read and concatenated without error,
    [run_scikit_experiment] prints "That model is not available!" and goes on
    to use the classifier variable, which was never bound: the run ends with
    UnboundLocalError on [clf_scikit]. No configuration error is raised at the
    point where the label is rejected. *)
Theorem run_scikit_experiment_unknown_label
    (GaussianNB : classifier) (DecisionTreeClassifier : Z -> classifier)
    (concat : list object -> res DataFrame)
    (w : world) (data a b' x1 y1 x2 y2 : loc) (o1 o2 o3 o4 : object)
    (train_ds test_ds : DataFrame) (clf_label : string) :
  clf_label <> "GaussianNB" -> clf_label <> "DecisionTree" ->
  is_split (heap w) data a b' x1 y1 x2 y2 ->
  heap w !! x1 = Some o1 -> heap w !! y1 = Some o2 ->
  heap w !! x2 = Some o3 -> heap w !! y2 = Some o4 ->
  concat [o1; o2] = inr train_ds -> concat [o3; o4] = inr test_ds ->
  run_scikit_experiment GaussianNB DecisionTreeClassifier concat data clf_label w =
    ({| heap := heap w;
        stdout := stdout w ++ ["That model is not available!"];
        files := files w |},
     inl (UnboundLocalError "clf_scikit")).
Proof.
  intros Hg Hd (Ha & Hb & Hx1 & Hy1 & Hx2 & Hy2) H1 H2 H3 H4 Hc1 Hc2.
  unfold run_scikit_experiment.
  rewrite (bind_step _ _ _ _ _ (dict_get2_run _ _ _ _ _ _ Ha Hx1)).
  rewrite (bind_step _ _ _ _ _ (dict_get2_run _ _ _ _ _ _ Ha Hy1)).
  rewrite (bind_step _ _ _ _ _ (dict_get2_run _ _ _ _ _ _ Hb Hx2)).
  rewrite (bind_step _ _ _ _ _ (dict_get2_run _ _ _ _ _ _ Hb Hy2)).
  rewrite (bind_step _ _ _ _ _ (load_run _ _ _ H1)).
  rewrite (bind_step _ _ _ _ _ (load_run _ _ _ H2)).
  rewrite (bind_step _ _ _ _ _ (load_run _ _ _ H3)).
  rewrite (bind_step _ _ _ _ _ (load_run _ _ _ H4)).
  rewrite Hc1, Hc2.
  rewrite !bool_decide_eq_false_2 by done.
  reflexivity.
Qed.

Lemma run_scikit_experiment_unknown_label_witness :
  run_scikit_experiment example_classifier (fun _ => example_classifier)
      example_concat 6 "Foo" example_world =
    ({| heap := example_heap;
        stdout := ["That model is not available!"];
        files := ∅ |},
     inl (UnboundLocalError "clf_scikit")).
Proof.
  eapply (run_scikit_experiment_unknown_label example_classifier
            (fun _ => example_classifier) example_concat example_world
            6 4 5 0 1 2 3);
    [ discriminate | discriminate | exact example_is_split
    | reflexivity | reflexivity | reflexivity | reflexivity
    | reflexivity | reflexivity ].
Defined.

(** ** load_data *)

Lemma store_last w o o' :
  store (length (heap w)) o' (set_heap (heap w ++ [o]) w)
  = (set_heap (heap w ++ [o']) w, inr tt).
Proof.
  unfold store, set_heap. cbn. f_equal. f_equal.
  rewrite insert_app_r_alt by done. by rewrite Nat.sub_diag.
Qed.

Lemma load_last w o :
  load (length (heap w)) (set_heap (heap w ++ [o]) w)
  = (set_heap (heap w ++ [o]) w, inr o).
Proof. unfold load. cbn. by rewrite list_lookup_middle. Qed.

Lemma bind_lift {A B} (r : res A) (f : A -> M B) w :
  (lift r ≫= f) w = match r with inl e => (w, inl e) | inr a => f a w end.
Proof. rewrite bind_run. unfold lift. by destruct r. Qed.

Lemma load_frame_run w l f :
  heap w !! l = Some (OFrame f) -> load_frame l w = (w, inr f).
Proof. intros H. unfold load_frame. by rewrite (bind_step _ _ _ _ _ (load_run _ _ _ H)). Qed.

Lemma load_frame_inr w w' l f :
  load_frame l w = (w', inr f) -> w' = w /\ heap w !! l = Some (OFrame f).
Proof.
  unfold load_frame. intros H. apply bind_inr in H as (o & w1 & Hload & H).
  apply load_inr in Hload as [-> Hl].
  destruct o as [|f'|]; try discriminate.
  apply mret_inr in H as [-> ->]. done.
Qed.

Lemma read_csv_run w path :
  read_csv path w =
    match files w !! path with
    | None => (w, inl FileNotFoundError)
    | Some rows =>
        match parse_csv rows with
        | inl e => (w, inl e)
        | inr f => (set_heap (heap w ++ [OFrame f]) w, inr (length (heap w)))
        end
    end.
Proof.
  unfold read_csv, read_file. rewrite bind_run.
  destruct (files w !! path) as [rows|]; [|done].
  rewrite bind_lift. by destruct (parse_csv rows).
Qed.

(** The table [load_data] leaves in the store for a parsed table [f]. *)
Definition relabelled (f : DataFrame) : DataFrame :=
  {| f_index := f_index f; f_columns := zip column_names (f_columns f).*2 |}.

(** C9 (as amended). [load_data] on the file at [os.path.join(dir, file)]:
    - a missing file, an empty one, or one the parser rejects (a record longer
      than the first): the parser's error propagates;
    - a file parsed into exactly ten columns: the result is a new table with
      the parsed rows and data, whose columns are the ten fixed names
      assigned by position, in order;
    - a file parsed into any other number of columns: the parser succeeds, and
      the assignment of the ten names raises ValueError. *)
Theorem load_data_outcomes (w : world) (data_dir data_file : string) :
  match files w !! path_join data_dir data_file with
  | None => load_data data_dir data_file w = (w, inl FileNotFoundError)
  | Some rows =>
      match parse_csv rows with
      | inl e => load_data data_dir data_file w = (w, inl e)
      | inr f =>
          if bool_decide (length (f_columns f) = 10)
          then load_data data_dir data_file w
               = (set_heap (heap w ++ [OFrame (relabelled f)]) w, inr (length (heap w)))
               /\ columns (relabelled f) = column_names
               /\ (f_columns (relabelled f)).*2 = (f_columns f).*2
               /\ f_index (relabelled f) = f_index f
          else load_data data_dir data_file w
               = (set_heap (heap w ++ [OFrame f]) w, inl ValueError)
      end
  end.
Proof.
  unfold load_data. rewrite bind_run, read_csv_run.
  destruct (files w !! path_join data_dir data_file) as [rows|]; [|done].
  destruct (parse_csv rows) as [e|f]; [done|].
  erewrite bind_step; [|apply load_frame_run; cbn; apply list_lookup_middle; done].
  rewrite bind_lift. unfold set_labels.
  case_bool_decide as Hlen.
  - rewrite bool_decide_eq_true_2 by (simpl; lia).
    erewrite bind_step; [|apply store_last].
    split; [done|]. split; [|split; [|done]].
    + unfold columns, relabelled. cbn [f_columns].
      apply fst_zip. rewrite length_fmap, Hlen. simpl. lia.
    + unfold relabelled. cbn [f_columns].
      apply snd_zip. rewrite length_fmap, Hlen. simpl. lia.
  - rewrite bool_decide_eq_false_2; [done|]. simpl. lia.
Qed.

(** A file of one record with nine fields. *)
Definition nine_column_world : world :=
  {| heap := []; stdout := [];
     files := {[ "../data/cmc.data" := [cells [24; 2; 3; 3; 1; 1; 2; 3; 0]%Z] ]} |}.

(** C9, counterexample to the claim as stated: on a file with nine columns
    the parser raises nothing (it returns a table of nine columns), so no
    parser error propagates; [load_data] fails with the ValueError of the
    assignment of the ten column names. *)
Lemma load_data_nine_columns_counterexample :
  (exists l, (read_csv "../data/cmc.data" nine_column_world).2 = inr l) /\
  ~ (exists e, (read_csv "../data/cmc.data" nine_column_world).2 = inl e /\
               (load_data "../data" "cmc.data" nine_column_world).2 = inl e) /\
  (load_data "../data" "cmc.data" nine_column_world).2 = inl ValueError.
Proof.
  split; [|split].
  - exists 0. vm_compute. reflexivity.
  - intros (e & He & _). vm_compute in He. discriminate.
  - vm_compute. reflexivity.
Qed.

(** ** split_data *)

(** The seven objects [split_data] creates, from the next free address [n]:
    the four tables, the two partitions and the split. *)
Definition split_objects (n : nat) (X y : DataFrame) (ind_train ind_test : list nat)
  : list object :=
  [ OFrame (take_rows ind_train X); OFrame (take_rows ind_test X);
    OFrame (take_rows ind_train y); OFrame (take_rows ind_test y);
    ODict {[ "X" := n; "y" := n + 2 ]};
    ODict {[ "X" := n + 1; "y" := n + 3 ]};
    ODict {[ "train" := n + 4; "test" := n + 5 ]} ].

Lemma lookup_app_plus {A} (h ext : list A) k :
  (h ++ ext) !! (length h + k) = ext !! k.
Proof. rewrite lookup_app_r by lia. f_equal. lia. Qed.

Lemma alloc_run w o :
  alloc o w = (set_heap (heap w ++ [o]) w, inr (length (heap w))).
Proof. reflexivity. Qed.

Lemma set_heap_set_heap h h' w : set_heap h (set_heap h' w) = set_heap h w.
Proof. reflexivity. Qed.

Lemma heap_set_heap h w : heap (set_heap h w) = h.
Proof. reflexivity. Qed.

Lemma split_data_run permutation w data y_on :
  split_data permutation data y_on w =
    match heap w !! data with
    | Some (OFrame f) =>
        match drop_label (Name y_on) f with
        | inl e => (w, inl e)
        | inr X =>
            match getitem_list [Name y_on] f with
            | inl e => (w, inl e)
            | inr y =>
                if bool_decide (n_rows X <> n_rows y) then (w, inl ValueError)
                else
                  match split_indices (permutation 42%Z (n_rows X)) (n_rows X) with
                  | inl e => (w, inl e)
                  | inr (ind_train, ind_test) =>
                      (set_heap (heap w ++ split_objects (length (heap w)) X y
                                                         ind_train ind_test) w,
                       inr (length (heap w) + 6))
                  end
            end
        end
    | _ => (w, inl TypeError)
    end.
Proof.
  unfold split_data.
  destruct (heap w !! data) as [o|] eqn:Hdata.
  2: { rewrite bind_run. unfold load_frame. rewrite bind_run. unfold load.
       by rewrite Hdata. }
  destruct o as [d|f|s].
  1,3: rewrite bind_run; unfold load_frame;
       rewrite (bind_step _ _ _ _ _ (load_run _ _ _ Hdata)); done.
  rewrite (bind_step _ _ _ _ _ (load_frame_run _ _ _ Hdata)).
  rewrite bind_lift. destruct (drop_label (Name y_on) f) as [e|X]; [done|].
  rewrite bind_lift. destruct (getitem_list [Name y_on] f) as [e|y]; [done|].
  rewrite bind_run. unfold train_test_split.
  case_bool_decide; [done|].
  rewrite bind_lift.
  destruct (split_indices _ _) as [e|[ind_train ind_test]]; [done|].
  unfold mbind, M_bind, alloc, mret, M_ret, set_heap, split_objects.
  cbn -[take_rows insert singletonM].
  rewrite <- !app_assoc, !length_app. cbn -[take_rows insert singletonM].
  repeat f_equal; lia.
Qed.

(** The split at [s] holds these four objects: train features and target,
    test features and target. *)
Definition split_content (h : list object) (s : loc) (Xtr ytr Xte yte : object) : Prop :=
  exists a b' x1 y1 x2 y2,
    is_split h s a b' x1 y1 x2 y2 /\
    h !! x1 = Some Xtr /\ h !! y1 = Some ytr /\
    h !! x2 = Some Xte /\ h !! y2 = Some yte.

Lemma drop_label_inr l f X :
  drop_label l f = inr X ->
  f_index X = f_index f /\ (l ∉ columns X) /\
  f_columns X = filter (fun c => c.1 <> l) (f_columns f).
Proof.
  unfold drop_label. case_bool_decide; [|discriminate]. intros [= <-].
  split; [done|]. split; [|done]. unfold columns. simpl.
  intros Hin. apply list_elem_of_fmap in Hin as (c & -> & Hc).
  apply list_elem_of_filter in Hc as [Hne _]. done.
Qed.

Lemma columns_take_rows idx f : columns (take_rows idx f) = columns f.
Proof.
  unfold columns, take_rows. simpl. rewrite <- list_fmap_compose.
  by apply list_fmap_ext.
Qed.

Lemma take_positions_seq {A} (d : A) (xs : list A) :
  take_positions d (seq 0 (length xs)) xs = xs.
Proof.
  unfold take_positions. apply list_eq. intros i.
  rewrite list_lookup_fmap.
  destruct (decide (i < length xs)) as [Hlt|Hge].
  - rewrite lookup_seq_lt by done. simpl.
    destruct (lookup_lt_is_Some_2 xs i Hlt) as [x Hx]. by rewrite Hx.
  - rewrite lookup_seq_ge by lia. simpl. symmetry. apply lookup_ge_None. lia.
Qed.

Lemma take_positions_perm {A} (d : A) (idx : list nat) (xs : list A) :
  idx ≡ₚ seq 0 (length xs) -> take_positions d idx xs ≡ₚ xs.
Proof.
  intros Hp. rewrite <- (take_positions_seq d xs) at 2.
  unfold take_positions. by apply fmap_Permutation.
Qed.

Lemma take_positions_app {A} (d : A) (i1 i2 : list nat) (xs : list A) :
  take_positions d (i1 ++ i2) xs = take_positions d i1 xs ++ take_positions d i2 xs.
Proof. unfold take_positions. apply fmap_app. Qed.

Lemma split_indices_inr perm n ind_train ind_test :
  length perm = n ->
  split_indices perm n = inr (ind_train, ind_test) ->
  ind_test ++ ind_train = perm /\
  length ind_test = (n + 4) `div` 5 /\
  length ind_train = n - (n + 4) `div` 5 /\
  0 < length ind_train.
Proof.
  intros Hlen. unfold split_indices, split_sizes.
  generalize ((n + 4) `div` 5). intros q. simpl.
  case_bool_decide as Hz; simpl; [discriminate|]. intros [= <- <-].
  rewrite (take_ge (drop q perm)) by (rewrite length_drop; lia).
  rewrite take_drop. rewrite length_take, length_drop. repeat split; lia.
Qed.

Lemma split_objects_content h X y ind_train ind_test :
  split_content (h ++ split_objects (length h) X y ind_train ind_test)
    (length h + 6)
    (OFrame (take_rows ind_train X)) (OFrame (take_rows ind_train y))
    (OFrame (take_rows ind_test X)) (OFrame (take_rows ind_test y)).
Proof.
  exists (length h + 4), (length h + 5), (length h + 0),
    (length h + 2), (length h + 1), (length h + 3).
  unfold is_split, points, split_objects.
  rewrite !lookup_app_plus. cbn [lookup list_lookup].
  rewrite Nat.add_0_r. split; [|done].
  repeat split; eexists; (split; [reflexivity|by simplify_map_eq]).
Qed.

(** C7. When [split_data] returns a split (the generator giving a permutation
    of the row positions, as the library's does), the train and test tables
    are the rows of the input at two lists of positions that together
    contain every position exactly once (row-disjoint and covering, so the
    row labels of the two partitions together are those of the input), the
    target column is absent from both feature tables, and the test partition
    has [ceil(n / 5)] of the [n] rows, the training partition the rest. *)
Theorem split_data_partition
    (permutation : Z -> nat -> list nat) (w w' : world) (data s : loc)
    (y_on : string) :
  (forall n, permutation 42%Z n ≡ₚ seq 0 n) ->
  split_data permutation data y_on w = (w', inr s) ->
  exists (f X y : DataFrame) (ind_train ind_test : list nat),
    heap w !! data = Some (OFrame f) /\
    drop_label (Name y_on) f = inr X /\
    getitem_list [Name y_on] f = inr y /\
    split_content (heap w') s
      (OFrame (take_rows ind_train X)) (OFrame (take_rows ind_train y))
      (OFrame (take_rows ind_test X)) (OFrame (take_rows ind_test y)) /\
    (ind_train ++ ind_test ≡ₚ seq 0 (n_rows f)) /\
    (f_index (take_rows ind_train X) ++ f_index (take_rows ind_test X) ≡ₚ f_index f) /\
    (Name y_on ∉ columns (take_rows ind_train X)) /\
    (Name y_on ∉ columns (take_rows ind_test X)) /\
    n_rows f <= 5 * length ind_test < n_rows f + 5 /\
    length ind_train + length ind_test = n_rows f.
Proof.
  intros Hperm. rewrite split_data_run.
  destruct (heap w !! data) as [[d|f|sr]|] eqn:Hdata; try discriminate.
  destruct (drop_label (Name y_on) f) as [e|X] eqn:HX; [discriminate|].
  destruct (getitem_list [Name y_on] f) as [e|y] eqn:Hy; [discriminate|].
  case_bool_decide as Hrows; [discriminate|].
  destruct (split_indices _ _) as [e|[ind_train ind_test]] eqn:Hidx; [discriminate|].
  intros [= <- <-].
  pose proof (drop_label_inr _ _ _ HX) as (HXi & HXc & _).
  assert (HnX : n_rows X = n_rows f) by (unfold n_rows; by rewrite HXi).
  apply split_indices_inr in Hidx as (Happ & Hte & Htr & Hpos);
    [|by rewrite (Hperm (n_rows X)), length_seq].
  assert (Hp : ind_train ++ ind_test ≡ₚ seq 0 (n_rows f)).
  { rewrite <- HnX, <- (Hperm (n_rows X)), <- Happ. apply Permutation_app_comm. }
  exists f, X, y, ind_train, ind_test.
  split; [done|]. split; [done|]. split; [done|]. split.
  { apply split_objects_content. }
  split; [done|]. split.
  { simpl. rewrite <- take_positions_app, HXi. apply take_positions_perm.
    exact Hp. }
  rewrite !columns_take_rows. split; [done|]. split; [done|].
  rewrite HnX in Hte, Htr.
  pose proof (Nat.div_mod (n_rows f + 4) 5 ltac:(lia)) as Hdm.
  pose proof (Nat.mod_upper_bound (n_rows f + 4) 5 ltac:(lia)) as Hub.
  revert Hdm Hub Hte Htr Hpos.
  generalize ((n_rows f + 4) `div` 5), ((n_rows f + 4) `mod` 5).
  intros q r Hdm Hub Hte Htr Hpos. lia.
Qed.

(** A table of five rows with a feature and the target, alone in the store. *)
Definition example_table : DataFrame :=
  {| f_index := [0; 1; 2; 3; 4]%Z;
     f_columns := [ (Name "wife_age", cells [24; 45; 43; 42; 36]%Z);
                    (Name "class", cells [1; 1; 2; 3; 1]%Z) ] |}.

Definition example_table_world : world :=
  {| heap := [OFrame example_table]; stdout := []; files := ∅ |}.

Lemma example_permutation_perm seed n : example_permutation seed n ≡ₚ seq 0 n.
Proof. apply reverse_Permutation. Qed.

Lemma split_data_partition_witness :
  exists (f X y : DataFrame) (ind_train ind_test : list nat),
    heap example_table_world !! 0 = Some (OFrame f) /\
    drop_label (Name "class") f = inr X /\
    getitem_list [Name "class"] f = inr y /\
    split_content
      (heap (split_data example_permutation 0 "class" example_table_world).1) 7
      (OFrame (take_rows ind_train X)) (OFrame (take_rows ind_train y))
      (OFrame (take_rows ind_test X)) (OFrame (take_rows ind_test y)) /\
    (ind_train ++ ind_test ≡ₚ seq 0 (n_rows f)) /\
    (f_index (take_rows ind_train X) ++ f_index (take_rows ind_test X) ≡ₚ f_index f) /\
    (Name "class" ∉ columns (take_rows ind_train X)) /\
    (Name "class" ∉ columns (take_rows ind_test X)) /\
    n_rows f <= 5 * length ind_test < n_rows f + 5 /\
    length ind_train + length ind_test = n_rows f.
Proof.
  apply (split_data_partition example_permutation example_table_world
           (split_data example_permutation 0 "class" example_table_world).1
           0 7 "class").
  - intros n. apply example_permutation_perm.
  - vm_compute. reflexivity.
Defined.

(** C6. [split_data] is deterministic: two calls on the same table and the
    same target name, in whatever state the store, the output and the file
    system are at each call (the seed is the constant 42, no other state is
    read), either raise the same exception or return splits holding the same
    four tables: the same train rows and the same test rows. *)
Theorem split_data_deterministic
    (permutation : Z -> nat -> list nat) (w1 w2 : world) (data1 data2 : loc)
    (y_on : string) :
  heap w1 !! data1 = heap w2 !! data2 ->
  match split_data permutation data1 y_on w1, split_data permutation data2 y_on w2 with
  | (w1', inr s1), (w2', inr s2) =>
      exists Xtr ytr Xte yte,
        split_content (heap w1') s1 Xtr ytr Xte yte /\
        split_content (heap w2') s2 Xtr ytr Xte yte
  | (_, inl e1), (_, inl e2) => e1 = e2
  | _, _ => False
  end.
Proof.
  intros Heq. rewrite !split_data_run, <- Heq.
  destruct (heap w1 !! data1) as [[d|f|sr]|]; try done.
  destruct (drop_label (Name y_on) f) as [e|X]; [done|].
  destruct (getitem_list [Name y_on] f) as [e|y]; [done|].
  case_bool_decide; [done|].
  destruct (split_indices _ _) as [e|[ind_train ind_test]]; [done|].
  eexists _, _, _, _. split; apply split_objects_content.
Qed.

(** Two calls in a row on the example table: the second runs in the store the
    first has left. *)
Lemma split_data_deterministic_witness :
  let w1 := example_table_world in
  let w2 := (split_data example_permutation 0 "class" w1).1 in
  exists Xtr ytr Xte yte,
    split_content (heap w2) 7 Xtr ytr Xte yte /\
    split_content (heap (split_data example_permutation 0 "class" w2).1) 14
      Xtr ytr Xte yte.
Proof.
  intros w1 w2.
  pose proof (split_data_deterministic example_permutation w1 w2 0 0 "class") as H.
  assert (Hin : heap w1 !! 0 = heap w2 !! 0) by (vm_compute; reflexivity).
  specialize (H Hin).
  assert (E1 : split_data example_permutation 0 "class" w1 = (w2, inr 7))
    by (vm_compute; reflexivity).
  assert (E2 : split_data example_permutation 0 "class" w2
               = ((split_data example_permutation 0 "class" w2).1, inr 14))
    by (vm_compute; reflexivity).
  rewrite E1, E2 in H. exact H.
Defined.

(** ** Metrics: rounding *)

Lemma round_half_even_integer (q : Q) (N : Z) :
  (q == inject_Z N)%Q -> round_half_even q = N.
Proof.
  unfold Qeq, round_half_even. simpl. intros H.
  assert (Hn : Qnum q = (N * Z.pos (Qden q))%Z) by lia.
  rewrite Hn, Z.div_mul, Z.mod_mul by lia.
  rewrite bool_decide_eq_true_2 by lia. done.
Qed.

Lemma round_half_even_bounds (q : Q) (N : Z) :
  (0 <= q)%Q -> (q <= inject_Z N)%Q -> (0 <= round_half_even q <= N)%Z.
Proof.
  unfold Qle, round_half_even. simpl. intros H0 HN.
  set (n := Qnum q) in *. set (d := Z.pos (Qden q)) in *.
  assert (Hd : (0 < d)%Z) by (unfold d; lia).
  assert (Hn0 : (0 <= n)%Z) by lia.
  assert (HnN : (n <= N * d)%Z) by lia.
  pose proof (Z.div_mod n d ltac:(lia)) as Hdm.
  pose proof (Z.mod_pos_bound n d Hd) as Hm.
  assert (Hfl0 : (0 <= n / d)%Z) by (apply Z.div_pos; lia).
  assert (HflN : (n / d <= N)%Z).
  { apply Z.div_le_upper_bound; lia. }
  destruct (decide (n / d = N)%Z) as [Heq|Hne].
  - assert (Hmod : (n mod d = 0)%Z) by nia.
    rewrite Hmod, bool_decide_eq_true_2 by lia. lia.
  - repeat case_bool_decide; try destruct (Z.even _); lia.
Qed.

Lemma pow10_pos (p : Z) : (0 <= p)%Z -> Z.pos (pow10 p) = (10 ^ p)%Z.
Proof.
  intros Hp. unfold pow10. rewrite Z2Pos.id; [done|].
  apply Z.pow_pos_nonneg; lia.
Qed.

(** [round] on a defined score, for a number of decimal places. *)
Lemma round_decimal (q : Q) (prec : Z) :
  (0 <= prec)%Z ->
  round (Some q) prec
  = Some (Qmake (round_half_even (q * inject_Z (10 ^ prec))) (pow10 prec)).
Proof.
  intros Hp. unfold round. rewrite bool_decide_eq_true_2 by done.
  by rewrite pow10_pos.
Qed.

Lemma round_unit_interval (q : Q) (prec : Z) :
  (0 <= prec)%Z -> (0 <= q)%Q -> (q <= 1)%Q ->
  exists k : Z,
    round (Some q) prec = Some (Qmake k (pow10 prec)) /\
    (0 <= Qmake k (pow10 prec))%Q /\ (Qmake k (pow10 prec) <= 1)%Q.
Proof.
  intros Hp H0 H1. rewrite round_decimal by done.
  eexists. split; [reflexivity|].
  assert (Hpow : (0 < 10 ^ prec)%Z) by (apply Z.pow_pos_nonneg; lia).
  destruct (round_half_even_bounds (q * inject_Z (10 ^ prec)) (10 ^ prec)) as [Hlo Hhi].
  - apply Qmult_le_0_compat; [done|]. unfold Qle. simpl. lia.
  - rewrite <- (Qmult_1_l (inject_Z (10 ^ prec))) at 2.
    apply Qmult_le_compat_r; [done|]. unfold Qle. simpl. lia.
  - unfold Qle. simpl. rewrite pow10_pos by done. lia.
Qed.

Lemma round_one (q : Q) (prec : Z) :
  (0 <= prec)%Z -> (q == 1)%Q ->
  exists v, round (Some q) prec = Some v /\ (v == 1)%Q.
Proof.
  intros Hp Hq. rewrite round_decimal by done. eexists. split; [reflexivity|].
  rewrite (round_half_even_integer _ (10 ^ prec)).
  - unfold Qeq. simpl. rewrite pow10_pos by done. lia.
  - rewrite Hq, Qmult_1_l. reflexivity.
Qed.

(** ** Metrics: the scores before rounding *)

Lemma ratio_bounds (a b : nat) : a <= b -> (0 <= ratio a b)%Q /\ (ratio a b <= 1)%Q.
Proof.
  intros Hab. unfold ratio. case_bool_decide as Hb.
  - split; unfold Qle; simpl; lia.
  - split; unfold Qle; simpl; lia.
Qed.

Lemma ratio_one (a : nat) : 0 < a -> (ratio a a == 1)%Q.
Proof.
  intros Ha. unfold ratio. rewrite bool_decide_eq_false_2 by lia.
  unfold Qeq. simpl. lia.
Qed.

Lemma count_correct_le_true y_true y_pred :
  count_correct y_true y_pred <= length y_true.
Proof.
  unfold count_correct.
  etransitivity; [apply length_filter|]. rewrite length_zip_with. lia.
Qed.

Lemma count_correct_le_pred y_true y_pred :
  count_correct y_true y_pred <= length y_pred.
Proof.
  unfold count_correct.
  etransitivity; [apply length_filter|]. rewrite length_zip_with. lia.
Qed.

Lemma count_tp_le_pred c y_true y_pred :
  count_tp c y_true y_pred <= count_pred c y_pred.
Proof.
  unfold count_tp, count_pred. revert y_pred.
  induction y_true as [|t ts IH]; intros [|p ps]; simpl; try lia.
  specialize (IH ps). rewrite !filter_cons. simpl.
  repeat case_decide; simpl; try lia; naive_solver.
Qed.

Lemma count_tp_le_true c y_true y_pred :
  count_tp c y_true y_pred <= count_true c y_true.
Proof.
  unfold count_tp, count_true. revert y_pred.
  induction y_true as [|t ts IH]; intros [|p ps]; simpl; try lia.
  specialize (IH ps). rewrite !filter_cons. simpl.
  repeat case_decide; simpl; try lia; naive_solver.
Qed.

Lemma count_correct_same y : count_correct y y = length y.
Proof.
  unfold count_correct. induction y as [|t ts IH]; [done|].
  simpl. rewrite filter_cons. simpl. rewrite decide_True by done. simpl. lia.
Qed.

Lemma count_tp_same c y : count_tp c y y = count_true c y.
Proof.
  unfold count_tp, count_true. induction y as [|t ts IH]; [done|].
  simpl. rewrite !filter_cons. simpl.
  repeat case_decide; simpl; try lia; naive_solver.
Qed.

Lemma count_true_pos c y : c ∈ y -> 0 < count_true c y.
Proof.
  unfold count_true. intros Hin.
  assert (Hc : c ∈ filter (fun t => t = c) y) by (by apply list_elem_of_filter).
  destruct (filter (fun t => t = c) y); [by apply not_elem_of_nil in Hc|simpl; lia].
Qed.

Lemma Qsum_bounds (qs : list Q) :
  Forall (fun v => (0 <= v)%Q /\ (v <= 1)%Q) qs ->
  (0 <= Qsum qs)%Q /\ (Qsum qs <= inject_Z (Z.of_nat (length qs)))%Q.
Proof.
  induction 1 as [|v qs [Hv0 Hv1] _ [IH0 IH1]].
  - split; apply Qle_refl.
  - change (Qsum (v :: qs)) with (v + Qsum qs)%Q.
    change (length (v :: qs)) with (S (length qs)).
    rewrite Nat2Z.inj_succ, <- Z.add_1_l, inject_Z_plus. split.
    + apply Qle_trans with (0 + 0)%Q; [apply Qle_refl|]. by apply Qplus_le_compat.
    + by apply Qplus_le_compat.
Qed.

Lemma Qsum_ones (qs : list Q) :
  Forall (fun v => (v == 1)%Q) qs ->
  (Qsum qs == inject_Z (Z.of_nat (length qs)))%Q.
Proof.
  induction 1 as [|v qs Hv _ IH]; [reflexivity|].
  change (Qsum (v :: qs)) with (v + Qsum qs)%Q.
  change (length (v :: qs)) with (S (length qs)).
  rewrite Nat2Z.inj_succ, <- Z.add_1_l, inject_Z_plus, Hv, IH. reflexivity.
Qed.

Lemma length_pos_Q {A} (xs : list A) :
  xs <> [] -> (0 < inject_Z (Z.of_nat (length xs)))%Q.
Proof. destruct xs; [done|]. intros _. unfold Qlt. simpl. lia. Qed.

Lemma mean_bounds (qs : list Q) :
  qs <> [] -> Forall (fun v => (0 <= v)%Q /\ (v <= 1)%Q) qs ->
  (0 <= mean qs)%Q /\ (mean qs <= 1)%Q.
Proof.
  intros Hne Hall. destruct (Qsum_bounds qs Hall) as [H0 H1].
  pose proof (length_pos_Q qs Hne) as Hpos. unfold mean. split.
  - apply Qle_shift_div_l; [done|]. by rewrite Qmult_0_l.
  - apply Qle_shift_div_r; [done|]. by rewrite Qmult_1_l.
Qed.

Lemma mean_ones (qs : list Q) :
  qs <> [] -> Forall (fun v => (v == 1)%Q) qs -> (mean qs == 1)%Q.
Proof.
  intros Hne Hall. pose proof (length_pos_Q qs Hne) as Hpos.
  unfold mean. rewrite (Qsum_ones qs Hall).
  unfold Qdiv. apply Qmult_inv_r. intros Hz. rewrite Hz in Hpos. by apply Qlt_irrefl in Hpos.
Qed.

Definition unit_interval (v : Q) : Prop := (0 <= v)%Q /\ (v <= 1)%Q.

(** [v] has [prec] decimal places: it is an integer over [10 ^ prec]. *)
Definition rounded_to (prec : Z) (v : Q) : Prop :=
  exists k : Z, v = Qmake k (pow10 prec).

Lemma round_score (q : Q) (prec : Z) :
  (0 <= prec)%Z -> unit_interval q ->
  exists v, round (Some q) prec = Some v /\
            unit_interval v /\ rounded_to prec v /\ ((q == 1)%Q -> (v == 1)%Q).
Proof.
  intros Hp [H0 H1].
  destruct (round_unit_interval q prec Hp H0 H1) as (k & Hr & Hk0 & Hk1).
  exists (Qmake k (pow10 prec)). split; [done|]. split; [done|]. split; [by exists k|].
  intros Hq. destruct (round_one q prec Hp Hq) as (v & Hv & Hv1).
  rewrite Hr in Hv. by inversion Hv; subst.
Qed.

Lemma unique_labels_nonempty y_true y_pred :
  y_true <> [] -> unique_labels y_true y_pred <> [].
Proof.
  destruct y_true as [|t ts]; [done|]. intros _ Hnil.
  assert (Hin : t ∈ unique_labels (t :: ts) y_pred).
  { unfold unique_labels. apply elem_of_remove_dups. simpl. apply list_elem_of_here. }
  rewrite Hnil in Hin. by apply not_elem_of_nil in Hin.
Qed.

Lemma class_score_bounds s y_true y_pred c :
  unit_interval (class_score s y_true y_pred c).
Proof.
  pose proof (count_tp_le_pred c y_true y_pred).
  pose proof (count_tp_le_true c y_true y_pred).
  destruct s; simpl; apply ratio_bounds; lia.
Qed.

Lemma class_score_same s y c : c ∈ y -> (class_score s y y c == 1)%Q.
Proof.
  intros Hin. pose proof (count_true_pos c y Hin) as Hpos.
  unfold class_score. rewrite count_tp_same.
  change (count_pred c y) with (count_true c y).
  destruct s; [by apply ratio_one..|].
  replace (count_true c y + count_true c y) with (2 * count_true c y) by lia.
  apply ratio_one. lia.
Qed.

Lemma micro_score_bounds s y_true y_pred :
  unit_interval (micro_score s y_true y_pred).
Proof.
  pose proof (count_correct_le_pred y_true y_pred).
  pose proof (count_correct_le_true y_true y_pred).
  destruct s; simpl; apply ratio_bounds; lia.
Qed.

Lemma micro_score_same s y : y <> [] -> (micro_score s y y == 1)%Q.
Proof.
  intros Hne. assert (0 < length y) by (destruct y; [done|simpl; lia]).
  unfold micro_score. rewrite count_correct_same.
  destruct s; [by apply ratio_one..|].
  replace (length y + length y) with (2 * length y) by lia.
  apply ratio_one. lia.
Qed.

Lemma averaged_score_defined s avg y_true y_pred :
  length y_true = length y_pred -> y_true <> [] ->
  exists q, averaged_score s avg y_true y_pred = inr (Some q) /\
            unit_interval q /\ (y_true = y_pred -> (q == 1)%Q).
Proof.
  intros Hlen Hne. unfold averaged_score.
  rewrite bool_decide_eq_false_2 by (intros H; by apply H).
  rewrite bool_decide_eq_false_2 by done.
  destruct avg.
  - eexists. split; [reflexivity|]. split; [apply micro_score_bounds|].
    intros <-. by apply micro_score_same.
  - eexists. split; [reflexivity|].
    pose proof (unique_labels_nonempty y_true y_pred Hne) as Hul.
    split.
    + apply mean_bounds.
      * intros Hnil. by apply fmap_nil_inv in Hnil.
      * apply Forall_fmap, Forall_forall. intros c _. apply class_score_bounds.
    + intros <-. apply mean_ones.
      * intros Hnil. by apply fmap_nil_inv in Hnil.
      * apply Forall_fmap, Forall_forall. intros c Hc. simpl.
        apply class_score_same.
        unfold unique_labels in Hc. rewrite elem_of_remove_dups in Hc.
        apply elem_of_app in Hc. by destruct Hc.
Qed.

Lemma accuracy_score_defined y_true y_pred :
  length y_true = length y_pred -> y_true <> [] ->
  exists q, accuracy_score y_true y_pred = inr (Some q) /\
            unit_interval q /\ (y_true = y_pred -> (q == 1)%Q).
Proof.
  intros Hlen Hne. unfold accuracy_score.
  rewrite bool_decide_eq_false_2 by (intros H; by apply H).
  rewrite bool_decide_eq_false_2 by done.
  eexists. split; [reflexivity|]. split.
  - apply ratio_bounds, count_correct_le_true.
  - intros <-. rewrite count_correct_same. apply ratio_one.
    destruct y_true; [done|simpl; lia].
Qed.

(** C8. For label sequences of equal length, not empty, and a precision that
    is a number of decimal places ([prec >= 0], 3 by default), [get_metrics]
    returns the mapping with exactly the keys accuracy, precision, recall and
    f1, in that order; every value lies in [0, 1] and has [prec] decimal
    places; and when the predictions equal the true labels all four values
    are 1. This holds for both averaging modes. *)
Theorem get_metrics_range_and_perfect
    (y_true y_pred : list Z) (avg : average) (prec : Z) :
  length y_true = length y_pred -> y_true <> [] -> (0 <= prec)%Z ->
  exists a p r f : Q,
    get_metrics y_true y_pred avg prec
    = inr [ ("accuracy", Some a); ("precision", Some p);
            ("recall", Some r); ("f1", Some f) ] /\
    Forall (fun v => unit_interval v /\ rounded_to prec v) [a; p; r; f] /\
    (y_true = y_pred -> Forall (fun v => (v == 1)%Q) [a; p; r; f]).
Proof.
  intros Hlen Hne Hprec. unfold get_metrics, precision_score, recall_score, f1_score.
  destruct (accuracy_score_defined y_true y_pred Hlen Hne) as (qa & -> & Ia & Pa).
  destruct (averaged_score_defined Precision avg y_true y_pred Hlen Hne) as (qp & -> & Ip & Pp).
  destruct (averaged_score_defined Recall avg y_true y_pred Hlen Hne) as (qr & -> & Ir & Pr).
  destruct (averaged_score_defined F1 avg y_true y_pred Hlen Hne) as (qf & -> & If & Pf).
  cbn [rbind].
  destruct (round_score qa prec Hprec Ia) as (a & -> & Ua & Ra & Oa).
  destruct (round_score qp prec Hprec Ip) as (p & -> & Up & Rp & Op).
  destruct (round_score qr prec Hprec Ir) as (r & -> & Ur & Rr & Or).
  destruct (round_score qf prec Hprec If) as (f & -> & Uf & Rf & Of).
  exists a, p, r, f. split; [done|]. split.
  - repeat (apply Forall_cons; split; [done|]). constructor.
  - intros Heq. repeat (apply Forall_cons; split; [by auto|]). constructor.
Qed.

Lemma get_metrics_range_and_perfect_witness :
  exists a p r f : Q,
    get_metrics [1; 2; 3; 1]%Z [1; 2; 3; 1]%Z default_average default_prec
    = inr [ ("accuracy", Some a); ("precision", Some p);
            ("recall", Some r); ("f1", Some f) ] /\
    Forall (fun v => unit_interval v /\ rounded_to default_prec v) [a; p; r; f] /\
    ([1; 2; 3; 1]%Z = [1; 2; 3; 1]%Z -> Forall (fun v => (v == 1)%Q) [a; p; r; f]).
Proof.
  apply (get_metrics_range_and_perfect [1; 2; 3; 1]%Z [1; 2; 3; 1]%Z
           default_average default_prec).
  - reflexivity.
  - discriminate.
  - unfold default_prec. lia.
Defined.

(** ** Discretisation: values are bin indices *)

(** A cell holding a bin index below [n_bins]. *)
Definition in_range (n_bins : Z) (c : cell) : Prop :=
  exists k : nat, c = Some (inject_Z (Z.of_nat k)) /\ (0 <= Z.of_nat k <= n_bins - 1)%Z.

(** Every column of [f] with a label among [ls] holds bin indices. *)
Definition discretized (ls : list label) (n_bins : Z) (f : DataFrame) : Prop :=
  forall c col, c ∈ ls -> (c, col) ∈ f_columns f -> Forall (in_range n_bins) col.

Lemma searchsorted_right_le a x : searchsorted_right a x <= length a.
Proof.
  induction a as [|e a IH]; simpl; [lia|]. destruct (Qle_bool e x); lia.
Qed.

Lemma length_linspace lo hi n : length (linspace lo hi n) = S n.
Proof. unfold linspace. rewrite length_app, length_map, length_seq. simpl. lia. Qed.

Lemma length_interior edges : length (interior edges) = length edges - 2.
Proof.
  unfold interior. destruct edges as [|e edges]; [done|]. simpl.
  destruct edges as [|e' edges] using rev_ind; [done|].
  rewrite removelast_last, length_app. simpl. lia.
Qed.

Lemma bin_of_fit_column n qs x : 1 <= n -> bin_of (fit_column n qs) x <= n - 1.
Proof.
  intros Hn. unfold fit_column. destruct qs as [|q qs]; simpl; [lia|].
  destruct (Qeq_bool _ _); simpl; [lia|].
  etransitivity; [apply searchsorted_right_le|].
  rewrite length_interior, length_linspace. lia.
Qed.

Lemma transform_column_in_range n_bins b qs :
  (forall x, (Z.of_nat (bin_of b x) <= n_bins - 1)%Z) ->
  Forall (in_range n_bins) (transform_column b qs).
Proof.
  intros Hb. unfold transform_column. apply Forall_fmap, Forall_forall.
  intros x _. exists (bin_of b x). split; [done|]. specialize (Hb x). lia.
Qed.

Lemma transform_columns_in_range n_bins bs cols arr :
  Forall (fun b => forall x, (Z.of_nat (bin_of b x) <= n_bins - 1)%Z) bs ->
  transform_columns bs cols = inr arr ->
  Forall (Forall (in_range n_bins)) arr.
Proof.
  intros Hbs. revert cols arr.
  induction Hbs as [|b bs Hb _ IH]; intros [|qs cols] arr; simpl; try discriminate.
  - intros [= <-]. constructor.
  - intros H. apply rbind_inr in H as (rest & Hrest & [= <-]).
    constructor; [by apply transform_column_in_range|]. by eapply IH.
Qed.

Lemma fit_bins n_bins X est :
  fit n_bins X = inr est ->
  Forall (fun b => forall x, (Z.of_nat (bin_of b x) <= n_bins - 1)%Z) est.
Proof.
  unfold fit. case_bool_decide as Hn; [discriminate|].
  intros H. apply rbind_inr in H as (cols & _ & [= <-]).
  apply Forall_fmap, Forall_forall. intros qs _ x. simpl.
  pose proof (bin_of_fit_column (Z.to_nat n_bins) qs x ltac:(lia)). lia.
Qed.

Lemma transform_in_range n_bins X X' est arr :
  fit n_bins X = inr est -> transform est X' = inr arr ->
  Forall (Forall (in_range n_bins)) arr.
Proof.
  intros Hfit. unfold transform. intros H.
  apply rbind_inr in H as (cols & _ & H).
  eapply transform_columns_in_range; [by eapply fit_bins|done].
Qed.

(** After [df[ls] = arr], a column of the table is a column of [arr] or an
    old column whose label is not in [ls]. *)
Lemma set_columns_inr ls vss f f' :
  set_columns ls vss f = inr f' ->
  forall c col, (c, col) ∈ f_columns f' ->
    col ∈ vss \/ ((c, col) ∈ f_columns f /\ c ∉ ls).
Proof.
  revert vss f. induction ls as [|l ls IH]; intros [|vs vss] f; simpl; try discriminate.
  - intros [= <-] c col Hin. right. split; [done|]. apply not_elem_of_nil.
  - case_bool_decide as Hl; [|discriminate]. intros H c col Hin.
    destruct (IH _ _ H c col Hin) as [Hv|[Hold Hc]].
    + left. by apply list_elem_of_further.
    + unfold set_column in Hold. simpl in Hold.
      rewrite bool_decide_eq_true_2 in Hold by done.
      apply list_elem_of_fmap in Hold as ([c0 col0] & Heq & Hin0).
      simpl in Heq. case_bool_decide as Hc0.
      * inversion Heq; subst. left. apply list_elem_of_here.
      * inversion Heq; subst. right. split; [done|].
        apply not_elem_of_cons. split; [|done]. intros ->. by apply Hc0.
Qed.

Lemma set_columns_discretized ls vss f f' n_bins :
  Forall (Forall (in_range n_bins)) vss ->
  set_columns ls vss f = inr f' ->
  discretized ls n_bins f'.
Proof.
  intros Hvss Hset c col Hc Hin.
  destruct (set_columns_inr _ _ _ _ Hset c col Hin) as [Hv|[_ Hn]]; [|done].
  rewrite Forall_forall in Hvss. by apply Hvss.
Qed.

Lemma pick_columns_inr ls cs picked :
  pick_columns ls cs = inr picked -> forall c, c ∈ picked -> c ∈ cs.
Proof.
  revert picked. induction ls as [|l ls IH]; intros picked; simpl.
  - intros [= <-] c Hc. by apply not_elem_of_nil in Hc.
  - destruct (filter (fun c => c.1 = l) cs) as [|c0 found] eqn:Hf; [discriminate|].
    intros H. apply rbind_inr in H as (rest & Hrest & [= <-]).
    intros c Hc. change (c ∈ (c0 :: found) ++ rest) in Hc.
    apply elem_of_app in Hc as [Hc|Hc]; [|by eapply IH].
    rewrite <- Hf in Hc. by apply list_elem_of_filter in Hc as [_ Hc].
Qed.

Lemma getitem_list_discretized ls' ls n_bins f g :
  getitem_list ls' f = inr g -> discretized ls n_bins f -> discretized ls n_bins g.
Proof.
  unfold getitem_list. intros H Hd.
  apply rbind_inr in H as (cs & Hcs & [= <-]).
  intros c col Hc Hin. simpl in Hin. eapply Hd; [done|]. by eapply pick_columns_inr.
Qed.

(** ** Successful runs of the store operations *)

Lemma alloc_inr w w' o l :
  alloc o w = (w', inr l) -> heap w' = heap w ++ [o] /\ l = length (heap w).
Proof. unfold alloc. by intros [= <- <-]. Qed.

Lemma store_inr w w' l o :
  store l o w = (w', inr tt) -> heap w' = <[l := o]> (heap w).
Proof. unfold store. by intros [= <-]. Qed.

Lemma frame_getitem_list_inr w w' l ls g :
  frame_getitem_list l ls w = (w', inr g) ->
  w' = w /\ exists f, heap w !! l = Some (OFrame f) /\ getitem_list ls f = inr g.
Proof.
  unfold frame_getitem_list. intros H.
  apply bind_inr in H as (f & w1 & Hf & H).
  apply load_frame_inr in Hf as [-> Hf]. apply lift_inr in H as [-> H]. eauto.
Qed.

Lemma frame_setitem_list_inr w w' l ls vss u :
  frame_setitem_list l ls vss w = (w', inr u) ->
  exists f f', heap w !! l = Some (OFrame f) /\ set_columns ls vss f = inr f' /\
               heap w' = <[l := OFrame f']> (heap w).
Proof.
  unfold frame_setitem_list. intros H.
  apply bind_inr in H as (f & w1 & Hf & H). apply load_frame_inr in Hf as [-> Hf].
  apply bind_inr in H as (f' & w2 & Hs & H). apply lift_inr in Hs as [-> Hs].
  destruct u. apply store_inr in H. eauto.
Qed.

Lemma frame_setitem_inr w w' l name value u :
  frame_setitem l name value w = (w', inr u) ->
  exists f vs, heap w !! l = Some (OFrame f) /\
               heap w' = <[l := OFrame (set_column name vs f)]> (heap w).
Proof.
  unfold frame_setitem. intros H.
  apply bind_inr in H as (f & w1 & Hf & H). apply load_frame_inr in Hf as [-> Hf].
  apply bind_inr in H as (o & w2 & Ho & H). apply load_inr in Ho as [-> Ho].
  apply bind_inr in H as ([idx vs] & w3 & Hc & H). apply lift_inr in Hc as [-> Hc].
  apply bind_inr in H as (vs' & w4 & Ha & H). apply lift_inr in Ha as [-> Ha].
  destruct u. apply store_inr in H. eauto.
Qed.

Lemma frame_copy_inr w w' l v :
  frame_copy l w = (w', inr v) ->
  exists f, heap w !! l = Some (OFrame f) /\
            heap w' = heap w ++ [OFrame f] /\ v = length (heap w).
Proof.
  unfold frame_copy. intros H.
  apply bind_inr in H as (f & w1 & Hf & H). apply load_frame_inr in Hf as [-> Hf].
  apply alloc_inr in H as [H1 H2]. eauto.
Qed.

Lemma frame_getitem_inr w w' l name v :
  frame_getitem l name w = (w', inr v) ->
  exists f r, heap w !! l = Some (OFrame f) /\ getitem name f = inr r /\
    heap w' = heap w ++ [match r with inl s => OSeries s | inr g => OFrame g end] /\
    v = length (heap w).
Proof.
  unfold frame_getitem. intros H.
  apply bind_inr in H as (f & w1 & Hf & H). apply load_frame_inr in Hf as [-> Hf].
  apply bind_inr in H as (r & w2 & Hr & H). apply lift_inr in Hr as [-> Hr].
  exists f, r. destruct r as [s|g]; apply alloc_inr in H as [H1 H2]; eauto.
Qed.

Lemma dict_set_inr w w' l k v u :
  dict_set l k v w = (w', inr u) ->
  exists d, heap w !! l = Some (ODict d) /\
            heap w' = <[l := ODict (<[k := v]> d)]> (heap w).
Proof.
  unfold dict_set. intros H.
  apply bind_inr in H as (o & w1 & Ho & H). apply load_inr in Ho as [-> Ho].
  destruct o as [d| |]; try discriminate.
  destruct u. apply store_inr in H. eauto.
Qed.

Lemma dict_set2_inr w w' l k1 k2 v u :
  dict_set2 l k1 k2 v w = (w', inr u) ->
  exists a d, points (heap w) l k1 a /\ heap w !! a = Some (ODict d) /\
              heap w' = <[a := ODict (<[k2 := v]> d)]> (heap w).
Proof.
  unfold dict_set2. intros H.
  apply bind_inr in H as (a & w1 & Ha & H). apply dict_get_inr in Ha as [-> Ha].
  apply dict_set_inr in H as (d & Hd & H). eauto.
Qed.

(** ** What the store operations preserve *)

Section Preservation.

Variable h : list object.

(** A dict entry other than the one written is kept. *)
Lemma points_dict_update (a : loc) d k v (l : loc) k' v' :
  h !! a = Some (ODict d) ->
  points h l k' v' -> k' <> k ->
  points (<[a := ODict (<[k := v]> d)]> h) l k' v'.
Proof.
  intros Ha (d' & Hl & Hk) Hne.
  destruct (decide (l = a)) as [Heq|Hla]; [subst l|].
  - assert (d' = d) as -> by congruence. exists (<[k := v]> d). split.
    + apply list_lookup_insert_eq. by eapply lookup_lt_Some.
    + by rewrite lookup_insert_ne.
  - exists d'. split; [|done]. by rewrite list_lookup_insert_ne.
Qed.

(** The entry written reads back. *)
Lemma points_dict_update_eq (a : loc) d k v :
  h !! a = Some (ODict d) ->
  points (<[a := ODict (<[k := v]> d)]> h) a k v.
Proof.
  intros Ha. exists (<[k := v]> d). split.
  - apply list_lookup_insert_eq. by eapply lookup_lt_Some.
  - apply lookup_insert_eq.
Qed.

(** An entry under the key written, in whatever dict: kept, or now the
    value written. *)
Lemma points_dict_update_key (a : loc) d k v (l : loc) v' :
  h !! a = Some (ODict d) ->
  points h l k v' ->
  exists v'', points (<[a := ODict (<[k := v]> d)]> h) l k v'' /\ (v'' = v' \/ v'' = v).
Proof.
  intros Ha (d' & Hl & Hk).
  destruct (decide (l = a)) as [Heq|Hla]; [subst l|].
  - exists v. split; [by apply points_dict_update_eq|by right].
  - exists v'. split; [|by left]. exists d'. split; [|done].
    by rewrite list_lookup_insert_ne.
Qed.

(** Tables and series are untouched by a write to a dict. *)
Lemma frame_dict_update (a : loc) d d' (x : loc) f :
  h !! a = Some (ODict d) -> h !! x = Some (OFrame f) ->
  <[a := ODict d']> h !! x = Some (OFrame f).
Proof.
  intros Ha Hx. rewrite list_lookup_insert_ne; [done|]. intros ->. congruence.
Qed.

Lemma series_dict_update (a : loc) d d' (x : loc) s :
  h !! a = Some (ODict d) -> h !! x = Some (OSeries s) ->
  <[a := ODict d']> h !! x = Some (OSeries s).
Proof.
  intros Ha Hx. rewrite list_lookup_insert_ne; [done|]. intros ->. congruence.
Qed.

(** Dicts are untouched by a write to a table. *)
Lemma points_frame_update (x : loc) f f' (l : loc) k v :
  h !! x = Some (OFrame f) -> points h l k v ->
  points (<[x := OFrame f']> h) l k v.
Proof.
  intros Hx (d & Hl & Hk). exists d. split; [|done].
  rewrite list_lookup_insert_ne; [done|]. intros ->. congruence.
Qed.

Lemma points_app ext l k v : points h l k v -> points (h ++ ext) l k v.
Proof.
  intros (d & Hl & Hk). exists d. split; [|done]. by apply lookup_app_l_Some.
Qed.

End Preservation.

(** The table at [x] has bin indices in its columns [ls]. *)
Definition good_frame (ls : list label) (n_bins : Z) (h : list object) (x : loc) : Prop :=
  exists f, h !! x = Some (OFrame f) /\ discretized ls n_bins f.

(** The partition [k1] of the split at [r] has a feature table, and its
    columns [ls] hold bin indices. *)
Definition part_ok (ls : list label) (n_bins : Z) (h : list object) (r : loc)
    (k1 : string) : Prop :=
  exists a x, points h r k1 a /\ points h a "X" x /\ good_frame ls n_bins h x.

Section Discretized.

Variable ls : list label.
Variable n_bins : Z.

Lemma good_frame_app h ext x :
  good_frame ls n_bins h x -> good_frame ls n_bins (h ++ ext) x.
Proof. intros (f & Hx & Hd). exists f. split; [by apply lookup_app_l_Some|done]. Qed.

Lemma good_frame_new h f :
  discretized ls n_bins f -> good_frame ls n_bins (h ++ [OFrame f]) (length h).
Proof. intros Hd. exists f. split; [apply list_lookup_middle; done|done]. Qed.

Lemma good_frame_dict_update h (a : loc) d d' x :
  h !! a = Some (ODict d) ->
  good_frame ls n_bins h x -> good_frame ls n_bins (<[a := ODict d']> h) x.
Proof.
  intros Ha (f & Hx & Hd). exists f. split; [|done]. by eapply frame_dict_update.
Qed.

Lemma good_frame_store h (x : loc) f f' :
  h !! x = Some (OFrame f) -> discretized ls n_bins f' ->
  good_frame ls n_bins (<[x := OFrame f']> h) x.
Proof.
  intros Hx Hd. exists f'. split; [|done].
  apply list_lookup_insert_eq. by eapply lookup_lt_Some.
Qed.

Lemma good_frame_store_other h (x x' : loc) f f' :
  h !! x' = Some (OFrame f) -> discretized ls n_bins f' ->
  good_frame ls n_bins h x -> good_frame ls n_bins (<[x' := OFrame f']> h) x.
Proof.
  intros Hx' Hd Hg. destruct (decide (x = x')) as [->|Hne].
  - by eapply good_frame_store.
  - destruct Hg as (g & Hx & Hdg). exists g. split; [|done].
    by rewrite list_lookup_insert_ne.
Qed.

Lemma part_ok_app h ext r k1 :
  part_ok ls n_bins h r k1 -> part_ok ls n_bins (h ++ ext) r k1.
Proof.
  intros (a & x & Hr & Ha & Hg). exists a, x.
  split; [by apply points_app|]. split; [by apply points_app|by apply good_frame_app].
Qed.

(** [d[k1]['X'] = v] with a discretised [v] makes partition [k1] good. *)
Lemma part_ok_set_X h r k1 (a : loc) d v :
  k1 <> "X" ->
  points h r k1 a -> h !! a = Some (ODict d) -> good_frame ls n_bins h v ->
  part_ok ls n_bins (<[a := ODict (<["X" := v]> d)]> h) r k1.
Proof.
  intros Hk Hr Ha Hg. exists a, v.
  split; [by apply points_dict_update|].
  split; [by apply points_dict_update_eq|by eapply good_frame_dict_update].
Qed.

(** ... and keeps the other partitions good. *)
Lemma part_ok_keep_X h r k1 (a : loc) d v :
  k1 <> "X" ->
  h !! a = Some (ODict d) -> good_frame ls n_bins h v ->
  part_ok ls n_bins h r k1 ->
  part_ok ls n_bins (<[a := ODict (<["X" := v]> d)]> h) r k1.
Proof.
  intros Hk Ha Hg (a0 & x0 & Hr & Ha0 & Hg0).
  destruct (points_dict_update_key h a d "X" v a0 x0 Ha Ha0) as (x' & Hx' & [->| ->]).
  - exists a0, x0. split; [by apply points_dict_update|].
    split; [done|by eapply good_frame_dict_update].
  - exists a0, v. split; [by apply points_dict_update|].
    split; [done|by eapply good_frame_dict_update].
Qed.

(** A write under another key keeps every partition good. *)
Lemma part_ok_keep_other h r k1 (a : loc) d k2 v :
  k1 <> k2 -> k2 <> "X" ->
  h !! a = Some (ODict d) ->
  part_ok ls n_bins h r k1 ->
  part_ok ls n_bins (<[a := ODict (<[k2 := v]> d)]> h) r k1.
Proof.
  intros Hk1 Hk2 Ha (a0 & x0 & Hr & Ha0 & Hg0). exists a0, x0.
  split; [by apply points_dict_update|].
  split; [apply points_dict_update; done|by eapply good_frame_dict_update].
Qed.

End Discretized.

Ltac run_step H x w Hx := apply bind_inr in H as (x & w & Hx & H).

Lemma discretize_data_class_bins w w' data ls n_bins r :
  discretize_data data ls n_bins "class" w = (w', inr r) ->
  part_ok ls n_bins (heap w') r "train" /\ part_ok ls n_bins (heap w') r "test".
Proof.
  unfold discretize_data. intros H.
  run_step H ds w1 Hcopy.
  run_step H x1 w2 Hx1. apply dict_get2_inr in Hx1 as [-> _].
  run_step H x2 w2 Hx2. apply dict_get2_inr in Hx2 as [-> _].
  run_step H y1 w2 Hy1. apply dict_get2_inr in Hy1 as [-> _].
  run_step H y2 w2 Hy2. apply dict_get2_inr in Hy2 as [-> _].
  rewrite bool_decide_eq_true_2 in H by done.
  run_step H sel w2 Hsel. apply frame_getitem_list_inr in Hsel as [-> _].
  run_step H est w2 Hest. apply lift_inr in Hest as [-> Hest].
  run_step H sel1 w2 Hsel1. apply frame_getitem_list_inr in Hsel1 as [-> _].
  run_step H arr1 w2 Harr1. apply lift_inr in Harr1 as [-> Harr1].
  run_step H u1 w2 Hset1.
  apply frame_setitem_list_inr in Hset1 as (f1 & f1' & Hf1 & Hset1 & Hh2).
  run_step H sel2 w3 Hsel2. apply frame_getitem_list_inr in Hsel2 as [-> _].
  run_step H arr2 w3 Harr2. apply lift_inr in Harr2 as [-> Harr2].
  run_step H u2 w3 Hset2.
  apply frame_setitem_list_inr in Hset2 as (f2 & f2' & Hf2 & Hset2 & Hh3).
  run_step H u3 w4 Hd1. apply dict_set2_inr in Hd1 as (a & da & Hra & Ha & Hh4).
  run_step H u4 w5 Hd2. apply dict_set2_inr in Hd2 as (b' & db & Hrb & Hb & Hh5).
  apply mret_inr in H as [-> ->].
  assert (D1 : discretized ls n_bins f1').
  { eapply set_columns_discretized; [|exact Hset1]. by eapply transform_in_range. }
  assert (D2 : discretized ls n_bins f2').
  { eapply set_columns_discretized; [|exact Hset2]. by eapply transform_in_range. }
  assert (G1 : good_frame ls n_bins (heap w3) x1).
  { rewrite Hh3. eapply good_frame_store_other; [done..|].
    rewrite Hh2. by eapply good_frame_store. }
  assert (G2 : good_frame ls n_bins (heap w3) x2).
  { rewrite Hh3. by eapply good_frame_store. }
  assert (G2' : good_frame ls n_bins (heap w4) x2).
  { rewrite Hh4. by eapply good_frame_dict_update. }
  assert (P1 : part_ok ls n_bins (heap w4) ds "train").
  { rewrite Hh4. by apply part_ok_set_X. }
  rewrite Hh5. split.
  - by apply part_ok_keep_X.
  - by apply part_ok_set_X.
Qed.

Lemma good_frame_getitem_list ls n_bins h (t : loc) cols g f :
  good_frame ls n_bins h t -> h !! t = Some (OFrame f) ->
  getitem_list cols f = inr g -> discretized ls n_bins g.
Proof.
  intros (f' & Hf' & Hd) Hf Hg. assert (f' = f) as -> by congruence.
  by eapply getitem_list_discretized.
Qed.

Lemma discretize_data_n_children_bins w w' data ls n_bins r :
  discretize_data data ls n_bins "n_children" w = (w', inr r) ->
  part_ok ls n_bins (heap w') r "train" /\ part_ok ls n_bins (heap w') r "test".
Proof.
  unfold discretize_data. intros H.
  run_step H ds w1 Hcopy.
  run_step H x1 w2 Hx1. apply dict_get2_inr in Hx1 as [-> _].
  run_step H x2 w2 Hx2. apply dict_get2_inr in Hx2 as [-> _].
  run_step H y1 w2 Hy1. apply dict_get2_inr in Hy1 as [-> _].
  run_step H y2 w2 Hy2. apply dict_get2_inr in Hy2 as [-> _].
  rewrite bool_decide_eq_false_2 in H by discriminate.
  rewrite bool_decide_eq_true_2 in H by done.
  run_step H t w2 Ht. apply frame_copy_inr in Ht as (fx1 & _ & _ & _).
  run_step H e w3 He. apply frame_copy_inr in He as (fx2 & _ & _ & _).
  run_step H u1 w4 Hs1. clear Hs1.
  run_step H u2 w5 Hs2. clear Hs2.
  run_step H sel w6 Hsel. apply frame_getitem_list_inr in Hsel as [-> _].
  run_step H est w6 Hest. apply lift_inr in Hest as [-> Hest].
  run_step H sel1 w6 Hsel1. apply frame_getitem_list_inr in Hsel1 as [-> _].
  run_step H arr1 w6 Harr1. apply lift_inr in Harr1 as [-> Harr1].
  run_step H u3 w6 Hset1.
  apply frame_setitem_list_inr in Hset1 as (f1 & f1' & Hf1 & Hset1 & Hh6).
  run_step H sel2 w7 Hsel2. apply frame_getitem_list_inr in Hsel2 as [-> _].
  run_step H arr2 w7 Harr2. apply lift_inr in Harr2 as [-> Harr2].
  run_step H u4 w7 Hset2.
  apply frame_setitem_list_inr in Hset2 as (f2 & f2' & Hf2 & Hset2 & Hh7).
  assert (D1 : discretized ls n_bins f1').
  { eapply set_columns_discretized; [|exact Hset1]. by eapply transform_in_range. }
  assert (D2 : discretized ls n_bins f2').
  { eapply set_columns_discretized; [|exact Hset2]. by eapply transform_in_range. }
  assert (Gt : good_frame ls n_bins (heap w7) t).
  { rewrite Hh7. eapply good_frame_store_other; [done..|].
    rewrite Hh6. by eapply good_frame_store. }
  assert (Ge : good_frame ls n_bins (heap w7) e).
  { rewrite Hh7. by eapply good_frame_store. }
  (* the new train features *)
  run_step H cols1 w8 Hc1. apply fmap_inr in Hc1 as (fc1 & Hc1 & ->).
  apply load_frame_inr in Hc1 as [-> _].
  run_step H v1 w8 Hv1. run_step Hv1 g1 w8' Hg1.
  apply frame_getitem_list_inr in Hg1 as [-> (ft & Hft & Hg1)].
  apply alloc_inr in Hv1 as [Hh8 ->].
  run_step H u5 w9 Hd1. apply dict_set2_inr in Hd1 as (a & da & Hra & Ha & Hh9).
  assert (Gv1 : good_frame ls n_bins (heap w8) (length (heap w7))).
  { rewrite Hh8. apply good_frame_new.
    exact (good_frame_getitem_list _ _ _ _ _ _ _ Gt Hft Hg1). }
  assert (Ge9 : good_frame ls n_bins (heap w9) e).
  { rewrite Hh9. eapply good_frame_dict_update; [exact Ha|].
    rewrite Hh8. by apply good_frame_app. }
  assert (P9 : part_ok ls n_bins (heap w9) ds "train").
  { rewrite Hh9. by apply part_ok_set_X. }
  (* the new test features *)
  run_step H cols2 w10 Hc2. apply fmap_inr in Hc2 as (fc2 & Hc2 & ->).
  apply load_frame_inr in Hc2 as [-> _].
  run_step H v2 w10 Hv2. run_step Hv2 g2 w10' Hg2.
  apply frame_getitem_list_inr in Hg2 as [-> (fe & Hfe & Hg2)].
  apply alloc_inr in Hv2 as [Hh10 ->].
  run_step H u6 w11 Hd2. apply dict_set2_inr in Hd2 as (b' & db & Hrb & Hb & Hh11).
  assert (Gv2 : good_frame ls n_bins (heap w10) (length (heap w9))).
  { rewrite Hh10. apply good_frame_new.
    exact (good_frame_getitem_list _ _ _ _ _ _ _ Ge9 Hfe Hg2). }
  assert (P11 : part_ok ls n_bins (heap w11) ds "train" /\
                part_ok ls n_bins (heap w11) ds "test").
  { rewrite Hh11. split.
    - apply part_ok_keep_X; [done..|]. rewrite Hh10. by apply part_ok_app.
    - by apply part_ok_set_X. }
  (* the new targets *)
  run_step H v3 w12 Hv3. apply frame_getitem_inr in Hv3 as (? & ? & _ & _ & Hh12 & _).
  run_step H u7 w13 Hd3. apply dict_set2_inr in Hd3 as (a3 & d3 & _ & Ha3 & Hh13).
  run_step H v4 w14 Hv4. apply frame_getitem_inr in Hv4 as (? & ? & _ & _ & Hh14 & _).
  run_step H u8 w15 Hd4. apply dict_set2_inr in Hd4 as (a4 & d4 & _ & Ha4 & Hh15).
  apply mret_inr in H as [-> ->].
  destruct P11 as [Ptr Pte].
  assert (P13 : part_ok ls n_bins (heap w13) ds "train" /\
                part_ok ls n_bins (heap w13) ds "test").
  { rewrite Hh13. split; (apply part_ok_keep_other; [done..|]);
      rewrite Hh12; by apply part_ok_app. }
  destruct P13 as [Ptr' Pte'].
  rewrite Hh15. split; (apply part_ok_keep_other; [done..|]);
    rewrite Hh14; by apply part_ok_app.
Qed.

(** C5. When [discretize_data] returns, in either mode ('class' or
    'n_children') and for any bin count, the train and the test feature
    tables of the split it returns hold, in every column named in
    [continuous_attrs], only bin indices between 0 and [n_bins - 1]; this
    includes the test values outside the range of the training values, which
    fall in the first or the last bin. *)
Theorem discretize_data_bin_indices
    (w w' : world) (data r : loc) (continuous_attrs : list label) (n_bins : Z)
    (y_on : string) :
  y_on = "class" \/ y_on = "n_children" ->
  discretize_data data continuous_attrs n_bins y_on w = (w', inr r) ->
  part_ok continuous_attrs n_bins (heap w') r "train" /\
  part_ok continuous_attrs n_bins (heap w') r "test".
Proof.
  intros [-> | ->] H.
  - by eapply discretize_data_class_bins.
  - by eapply discretize_data_n_children_bins.
Qed.

Lemma discretize_data_bin_indices_witness :
  part_ok [Name "a"] 2
    (heap (discretize_data 6 [Name "a"] 2 "class" example_world).1) 7 "train" /\
  part_ok [Name "a"] 2
    (heap (discretize_data 6 [Name "a"] 2 "class" example_world).1) 7 "test".
Proof.
  apply (discretize_data_bin_indices example_world _ 6 7 [Name "a"] 2 "class").
  - by left.
  - vm_compute. reflexivity.
Defined.

(** ** deepcopy makes a faithful copy *)

(** The structure reachable from [l] nests dicts less than [n] deep. *)
Fixpoint shallow (h : list object) (n : nat) (l : loc) : bool :=
  match n with
  | 0 => false
  | S n' =>
      match h !! l with
      | Some (ODict d) => forallb (fun kv => shallow h n' kv.2) (map_to_list d)
      | Some _ => true
      | None => false
      end
  end.

(** The copy of an object, given where its parts were copied to. *)
Definition copy_obj (memo : gmap loc loc) (o : object) : object :=
  match o with
  | ODict d => ODict (omap (fun v => memo !! v) d)
  | _ => o
  end.

(** Every object of [h] is still in [h'], at the same address. *)
Definition sub (h h' : list object) : Prop :=
  forall (i : loc) o, h !! i = Some o -> h' !! i = Some o.

Lemma sub_refl h : sub h h.
Proof. by intros i o. Qed.

Lemma sub_trans h1 h2 h3 : sub h1 h2 -> sub h2 h3 -> sub h1 h3.
Proof. intros H1 H2 i o Hi. eauto. Qed.

Lemma sub_app h ext : sub h (h ++ ext).
Proof. intros i o Hi. by apply lookup_app_l_Some. Qed.

Lemma sub_length h h' : sub h h' -> length h <= length h'.
Proof.
  intros Hs. destruct h as [|o h] using rev_ind; [simpl; lia|].
  assert (Hl : (h ++ [o]) !! length h = Some o) by (by apply list_lookup_middle).
  apply Hs, lookup_lt_Some in Hl. rewrite length_app. simpl. lia.
Qed.

Lemma sub_prefix h h' : sub h h' -> h `prefix_of` h'.
Proof.
  intros Hs. exists (drop (length h) h').
  apply list_eq. intros i.
  destruct (decide (i < length h)) as [Hlt|Hge].
  - destruct (lookup_lt_is_Some_2 h i Hlt) as [o Ho].
    transitivity (Some o); [by apply Hs|]. symmetry. by apply lookup_app_l_Some.
  - rewrite lookup_app_r by lia. rewrite lookup_drop. f_equal. lia.
Qed.

Section Deepcopy.

Variable h0 : list object.

(** [l'] holds the copy of the object that [h0] has at [l]. *)
Definition copied (memo : gmap loc loc) (h : list object) (l l' : loc) : Prop :=
  exists o, h0 !! l = Some o /\ h !! l' = Some (copy_obj memo o) /\
            match o with
            | ODict d => map_Forall (fun _ v => is_Some (memo !! v)) d
            | _ => True
            end.

(** The state of a copy in progress: [busy] are the dicts being filled. *)
Definition copying (busy : loc -> Prop) (memo : gmap loc loc) (h : list object) : Prop :=
  sub h0 h /\
  (forall l l', memo !! l = Some l' -> length h0 <= l' < length h) /\
  (forall l1 l2 l', memo !! l1 = Some l' -> memo !! l2 = Some l' -> l1 = l2) /\
  (forall l l', memo !! l = Some l' -> ~ busy l -> copied memo h l l').

Lemma copy_obj_mono memo memo' o :
  memo ⊆ memo' ->
  match o with
  | ODict d => map_Forall (fun _ v => is_Some (memo !! v)) d
  | _ => True
  end ->
  copy_obj memo' o = copy_obj memo o.
Proof.
  intros Hsub Hdom. destruct o as [d| |]; [|done..]. simpl. f_equal.
  apply map_eq. intros k. rewrite !lookup_omap.
  destruct (d !! k) as [v|] eqn:Hk; [|done]. simpl.
  destruct (Hdom k v Hk) as [v' Hv]. rewrite Hv.
  by apply (lookup_weaken _ _ _ _ Hv Hsub).
Qed.

Lemma copied_mono memo memo' h h' l l' :
  memo ⊆ memo' -> sub h h' -> copied memo h l l' -> copied memo' h' l l'.
Proof.
  intros Hm Hh (o & Ho & Hl' & Hdom). exists o. split; [done|]. split.
  - rewrite (copy_obj_mono memo memo' o Hm Hdom). by apply Hh.
  - destruct o as [d| |]; [|done..]. intros k v Hk.
    destruct (Hdom k v Hk) as [v' Hv]. exists v'.
    by apply (lookup_weaken _ _ _ _ Hv Hm).
Qed.

Lemma copying_alloc_leaf busy memo h (l : loc) o :
  copying busy memo h -> memo !! l = None -> h0 !! l = Some o ->
  copy_obj (<[l := length h]> memo) o = o ->
  match o with ODict d => map_Forall (fun _ v => is_Some (<[l := length h]> memo !! v)) d
             | _ => True end ->
  copying busy (<[l := length h]> memo) (h ++ [o]).
Proof.
  intros (Hsub & Hran & Hinj & Hcop) Hnone Ho Hleaf Hdom.
  assert (Hm : memo ⊆ <[l := length h]> memo) by (by apply insert_subseteq).
  pose proof (sub_length _ _ Hsub) as Hlen.
  split; [|split; [|split]].
  - eapply sub_trans; [done|apply sub_app].
  - intros l1 l1' Hl1. rewrite length_app. simpl.
    apply lookup_insert_Some in Hl1 as [[-> <-]|[_ Hl1]]; [lia|].
    specialize (Hran _ _ Hl1). lia.
  - intros l1 l2 l' H1 H2.
    apply lookup_insert_Some in H1 as [[-> <-]|[Hn1 H1]];
      apply lookup_insert_Some in H2 as [[-> E]|[Hn2 H2]]; try done.
    + specialize (Hran _ _ H2). lia.
    + specialize (Hran _ _ H1). lia.
    + by eapply Hinj.
  - intros l1 l1' Hl1 Hbusy.
    apply lookup_insert_Some in Hl1 as [[-> <-]|[_ Hl1]].
    + exists o. rewrite Hleaf. split; [done|]. split; [|done].
      by apply list_lookup_middle.
    + eapply copied_mono; [done|apply sub_app|]. by apply Hcop.
Qed.

Lemma copying_alloc_dict busy memo h (l : loc) :
  copying busy memo h -> memo !! l = None ->
  copying (fun x => busy x \/ x = l) (<[l := length h]> memo) (h ++ [ODict ∅]).
Proof.
  intros (Hsub & Hran & Hinj & Hcop) Hnone.
  assert (Hm : memo ⊆ <[l := length h]> memo) by (by apply insert_subseteq).
  pose proof (sub_length _ _ Hsub) as Hlen.
  split; [|split; [|split]].
  - eapply sub_trans; [done|apply sub_app].
  - intros l1 l1' Hl1. rewrite length_app. simpl.
    apply lookup_insert_Some in Hl1 as [[-> <-]|[_ Hl1]]; [lia|].
    specialize (Hran _ _ Hl1). lia.
  - intros l1 l2 l' H1 H2.
    apply lookup_insert_Some in H1 as [[-> <-]|[Hn1 H1]];
      apply lookup_insert_Some in H2 as [[-> E]|[Hn2 H2]]; try done.
    + specialize (Hran _ _ H2). lia.
    + specialize (Hran _ _ H1). lia.
    + by eapply Hinj.
  - intros l1 l1' Hl1 Hbusy.
    apply lookup_insert_Some in Hl1 as [[-> <-]|[_ Hl1]].
    + exfalso. apply Hbusy. by right.
    + eapply copied_mono; [done|apply sub_app|]. apply Hcop; [done|].
      intros Hb. apply Hbusy. by left.
Qed.

Lemma copying_dict_set busy memo h (l l' : loc) dp d' :
  copying busy memo h -> memo !! l = Some l' -> busy l ->
  h !! l' = Some (ODict dp) ->
  copying busy memo (<[l' := ODict d']> h).
Proof.
  intros (Hsub & Hran & Hinj & Hcop) Hl Hbusy Hl'.
  pose proof (Hran _ _ Hl) as Hr.
  split; [|split; [|split]].
  - intros i o Hi. rewrite list_lookup_insert_ne; [by apply Hsub|].
    intros ->. apply lookup_lt_Some in Hi. lia.
  - intros l1 l1' Hl1. rewrite length_insert. by eapply Hran.
  - done.
  - intros l1 l1' Hl1 Hnb. destruct (Hcop _ _ Hl1 Hnb) as (o & Ho & Hc & Hdom).
    exists o. split; [done|]. split; [|done].
    rewrite list_lookup_insert_ne; [done|].
    intros ->. assert (l = l1) by (by eapply Hinj). by subst.
Qed.

Lemma copying_finish busy memo h (l l' : loc) :
  copying (fun x => busy x \/ x = l) memo h ->
  memo !! l = Some l' -> copied memo h l l' ->
  copying busy memo h.
Proof.
  intros (Hsub & Hran & Hinj & Hcop) Hl Hc.
  split; [done|]. split; [done|]. split; [done|].
  intros l1 l1' Hl1 Hnb. destruct (decide (l1 = l)) as [->|Hne].
  - assert (l1' = l') as -> by congruence. done.
  - apply Hcop; [done|]. intros [Hb|Heq]; done.
Qed.

Lemma dict_set_run w (l : loc) k v d :
  heap w !! l = Some (ODict d) ->
  dict_set l k v w = (set_heap (<[l := ODict (<[k := v]> d)]> (heap w)) w, inr tt).
Proof.
  intros Hl. unfold dict_set. by rewrite (bind_step _ _ _ _ _ (load_run _ _ _ Hl)).
Qed.

(** What a copying function of depth [n] does on a structure of that depth:
    it returns, it records the copy in the memo, and it only adds objects. *)
Definition copy_spec (copy : gmap loc loc -> loc -> M (gmap loc loc * loc)) (n : nat)
  : Prop :=
  forall busy memo (l : loc) w,
    shallow h0 n l = true -> copying busy memo (heap w) ->
    exists w' memo' l',
      copy memo l w = (w', inr (memo', l')) /\
      copying busy memo' (heap w') /\ memo ⊆ memo' /\ memo' !! l = Some l' /\
      sub (heap w) (heap w') /\ stdout w' = stdout w /\ files w' = files w.

Lemma fill_dict_spec copy n busy (l l' : loc) items :
  copy_spec copy n -> busy l ->
  forall memo w dp,
    Forall (fun kv : string * loc => shallow h0 n kv.2 = true) items ->
    NoDup items.*1 ->
    copying busy memo (heap w) -> memo !! l = Some l' ->
    heap w !! l' = Some (ODict dp) ->
    exists w' memo' dfinal,
      fill_dict copy l' items memo w = (w', inr memo') /\
      copying busy memo' (heap w') /\ memo ⊆ memo' /\
      heap w' !! l' = Some (ODict dfinal) /\
      (forall k, dfinal !! k =
                 match (list_to_map items : gmap string loc) !! k with
                 | Some v => memo' !! v
                 | None => dp !! k
                 end) /\
      Forall (fun kv : string * loc => is_Some (memo' !! kv.2)) items /\
      (forall (i : loc) o, i <> l' -> heap w !! i = Some o -> heap w' !! i = Some o) /\
      stdout w' = stdout w /\ files w' = files w.
Proof.
  intros Hcopy Hbusy. induction items as [|[k v] items IH];
    intros memo w dp Hsh Hnd Hinv Hl Hl'.
  - exists w, memo, dp. simpl.
    split; [done|]. split; [done|]. split; [done|]. split; [done|].
    split; [done|]. split; [done|]. split; [by intros|]. done.
  - apply Forall_cons in Hsh as [Hv Hsh]. simpl in Hv.
    apply NoDup_cons in Hnd as [Hk Hnd].
    destruct (Hcopy busy memo v w Hv Hinv)
      as (w1 & memo1 & v' & E1 & Hinv1 & Hm1 & Hv1 & Hs1 & Ho1 & Hf1).
    pose proof (Hs1 _ _ Hl') as Hl1'.
    pose proof (lookup_weaken _ _ _ _ Hl Hm1) as Hl1.
    pose proof (dict_set_run w1 l' k v' dp Hl1') as E2.
    set (w2 := set_heap (<[l' := ODict (<[k := v']> dp)]> (heap w1)) w1) in *.
    assert (Hinv2 : copying busy memo1 (heap w2)) by (by eapply copying_dict_set).
    assert (Hl2' : heap w2 !! l' = Some (ODict (<[k := v']> dp))).
    { unfold w2. cbn. apply list_lookup_insert_eq. by eapply lookup_lt_Some. }
    destruct (IH memo1 w2 (<[k := v']> dp) Hsh Hnd Hinv2 Hl1 Hl2')
      as (w' & memo' & dfinal & E3 & Hinv' & Hm' & Hfin & Hspec & Hdom & Hfr & Ho' & Hf').
    exists w', memo', dfinal. split.
    { simpl. rewrite (bind_step _ _ _ _ _ E1). simpl.
      by rewrite (bind_step _ _ _ _ _ E2). }
    split; [done|]. split; [by etransitivity|]. split; [done|]. split.
    { intros k0. rewrite Hspec. simpl.
      destruct (decide (k0 = k)) as [->|Hne].
      - rewrite lookup_insert_eq.
        rewrite (not_elem_of_list_to_map_1 _ _ Hk), lookup_insert_eq.
        symmetry. by apply (lookup_weaken _ _ _ _ Hv1 Hm').
      - by rewrite !lookup_insert_ne. }
    split.
    { apply Forall_cons. split; [|done]. simpl. exists v'.
      by apply (lookup_weaken _ _ _ _ Hv1 Hm'). }
    split.
    { intros i o Hi Hio. apply Hfr; [done|]. unfold w2. cbn.
      rewrite list_lookup_insert_ne by done. by apply Hs1. }
    split; [by rewrite Ho'|by rewrite Hf'].
Qed.

Lemma shallow_dict n (l : loc) d :
  h0 !! l = Some (ODict d) -> shallow h0 (S n) l = true ->
  Forall (fun kv : string * loc => shallow h0 n kv.2 = true) (map_to_list d).
Proof.
  intros Hl. simpl. rewrite Hl. intros H.
  apply Forall_forall. intros kv Hkv.
  rewrite forallb_forall in H. apply H. by apply list_elem_of_In.
Qed.

Lemma deepcopy_rec_spec n : copy_spec (deepcopy_rec n) n.
Proof.
  induction n as [|n IH]; intros busy memo l w Hsh Hinv; [discriminate|].
  simpl. destruct (memo !! l) as [l'|] eqn:Hmemo.
  { exists w, memo, l'. split; [done|]. split; [done|]. split; [done|].
    split; [done|]. split; [apply sub_refl|done]. }
  assert (Ho : exists o, h0 !! l = Some o).
  { simpl in Hsh. destruct (h0 !! l) as [o|]; [eauto|discriminate]. }
  destruct Ho as [o Ho].
  pose proof Hinv as (Hsub & _).
  pose proof (load_run w l o (Hsub _ _ Ho)) as Eload.
  rewrite (bind_step _ _ _ _ _ Eload).
  assert (Hm : memo ⊆ <[l := length (heap w)]> memo) by (by apply insert_subseteq).
  assert (Hleaf : copy_obj (<[l := length (heap w)]> memo) o = o ->
    match o with
    | ODict d => map_Forall (fun _ v => is_Some (<[l := length (heap w)]> memo !! v)) d
    | _ => True
    end ->
    exists w' memo' l',
      (l' ← alloc o; mret (<[l := l']> memo, l')) w = (w', inr (memo', l')) /\
      copying busy memo' (heap w') /\ memo ⊆ memo' /\ memo' !! l = Some l' /\
      sub (heap w) (heap w') /\ stdout w' = stdout w /\ files w' = files w).
  { intros Hc Hd.
    exists (set_heap (heap w ++ [o]) w), (<[l := length (heap w)]> memo), (length (heap w)).
    split; [done|]. split; [by apply copying_alloc_leaf|]. split; [done|].
    split; [apply lookup_insert_eq|]. split; [apply sub_app|done]. }
  destruct o as [d|f|s]; [|by apply Hleaf..].
  (* a dict: created empty, recorded, then filled *)
  rewrite (bind_step _ _ _ _ _ (alloc_run w (ODict ∅))).
  set (l' := length (heap w)). set (w1 := set_heap (heap w ++ [ODict ∅]) w).
  set (memo1 := <[l := l']> memo).
  set (busy1 := fun x => busy x \/ x = l).
  assert (Hinv1 : copying busy1 memo1 (heap w1)) by (by apply copying_alloc_dict).
  assert (Hl1 : memo1 !! l = Some l') by apply lookup_insert_eq.
  assert (Hl1' : heap w1 !! l' = Some (ODict ∅)) by (by apply list_lookup_middle).
  destruct (fill_dict_spec (deepcopy_rec n) n busy1 l l' (map_to_list d) IH
              (or_intror eq_refl) memo1 w1 ∅ (shallow_dict n l d Ho Hsh)
              (NoDup_fst_map_to_list d) Hinv1 Hl1 Hl1')
    as (w' & memo' & dfinal & Efill & Hinv' & Hm' & Hfin & Hspec & Hdom & Hfr & Ho' & Hf').
  exists w', memo', l'.
  split. { by rewrite (bind_step _ _ _ _ _ Efill). }
  assert (Hl' : memo' !! l = Some l') by (by apply (lookup_weaken _ _ _ _ Hl1 Hm')).
  split.
  { eapply copying_finish; [exact Hinv'|exact Hl'|].
    exists (ODict d). split; [done|]. split.
    - rewrite Hfin. simpl. do 2 f_equal. apply map_eq. intros k.
      rewrite Hspec, lookup_omap, list_to_map_to_list, lookup_empty.
      by destruct (d !! k).
    - intros k v Hk. rewrite Forall_forall in Hdom.
      apply (Hdom (k, v)). by apply elem_of_map_to_list. }
  split; [by etransitivity|]. split; [done|].
  split; [|done].
  intros i o Hi. apply Hfr.
  - apply lookup_lt_Some in Hi. unfold l'. lia.
  - unfold w1. cbn. by apply lookup_app_l_Some.
Qed.

End Deepcopy.

Lemma shallow_mono h n m (l : loc) :
  shallow h n l = true -> n <= m -> shallow h m l = true.
Proof.
  revert m l. induction n as [|n IH]; intros m l Hs Hle; [discriminate|].
  destruct m as [|m]; [lia|]. simpl in *.
  destruct (h !! l) as [[d| |]|]; try done.
  rewrite forallb_forall in *. intros kv Hkv. apply IH; [by apply Hs|lia].
Qed.

(** A dict of shallow parts is shallow. *)
Lemma shallow_intro h n (l : loc) d :
  h !! l = Some (ODict d) ->
  map_Forall (fun _ v => shallow h n v = true) d ->
  shallow h (S n) l = true.
Proof.
  intros Hl Hd. simpl. rewrite Hl. apply forallb_forall. intros [k v] Hkv.
  apply list_elem_of_In, elem_of_map_to_list in Hkv. exact (Hd k v Hkv).
Qed.

Lemma shallow_leaf h n (l : loc) o :
  h !! l = Some o -> (forall d, o <> ODict d) -> shallow h (S n) l = true.
Proof. intros Hl Ho. simpl. rewrite Hl. destruct o; [by exfalso; eapply Ho|done..]. Qed.

(** [deepcopy] of a structure within the recursion limit returns a new
    object; every object met is copied once, and nothing else changes. *)
Lemma deepcopy_run w (data : loc) :
  shallow (heap w) recursion_limit data = true ->
  exists w1 memo ds,
    deepcopy data w = (w1, inr ds) /\
    copying (heap w) (fun _ => False) memo (heap w1) /\
    memo !! data = Some ds /\
    stdout w1 = stdout w /\ files w1 = files w.
Proof.
  intros Hsh.
  destruct (deepcopy_rec_spec (heap w) recursion_limit (fun _ => False) ∅ data w Hsh)
    as (w1 & memo & ds & E & Hinv & _ & Hds & _ & Ho & Hf).
  { split; [apply sub_refl|]. split; [|split]; intros ? ?; by rewrite ?lookup_empty. }
  exists w1, memo, ds. unfold deepcopy. by rewrite (bind_step _ _ _ _ _ E).
Qed.

Section Copies.

Variables (h0 h : list object) (memo : gmap loc loc).
Hypothesis Hcopy : copying h0 (fun _ => False) memo h.

Lemma copy_points (l l' : loc) k (v : loc) :
  memo !! l = Some l' -> points h0 l k v ->
  exists v', memo !! v = Some v' /\ points h l' k v'.
Proof.
  intros Hl (d & Hd & Hk). destruct Hcopy as (_ & _ & _ & Hc).
  destruct (Hc l l' Hl (fun F => F)) as (o & Ho & Hl' & Hdom).
  assert (o = ODict d) as -> by congruence.
  destruct (Hdom k v Hk) as [v' Hv]. exists v'. split; [done|].
  eexists. split; [exact Hl'|]. by rewrite lookup_omap, Hk.
Qed.

Lemma copy_leaf (l l' : loc) o :
  memo !! l = Some l' -> h0 !! l = Some o -> (forall d, o <> ODict d) ->
  h !! l' = Some o.
Proof.
  intros Hl Ho Hnd. destruct Hcopy as (_ & _ & _ & Hc).
  destruct (Hc l l' Hl (fun F => F)) as (o' & Ho' & Hl' & _).
  assert (o' = o) as -> by congruence.
  destruct o; [by exfalso; eapply Hnd|done..].
Qed.

Lemma copy_new (l l' : loc) : memo !! l = Some l' -> length h0 <= l'.
Proof. intros Hl. destruct Hcopy as (_ & Hr & _). by destruct (Hr _ _ Hl). Qed.

Lemma copy_inj (l1 l2 l' : loc) :
  memo !! l1 = Some l' -> memo !! l2 = Some l' -> l1 = l2.
Proof. destruct Hcopy as (_ & _ & Hi & _). apply Hi. Qed.

Lemma copy_sub : sub h0 h.
Proof. by destruct Hcopy. Qed.

(** The copy of a split is a split, part by part. *)
Lemma copy_is_split (l l' a b' x1 y1 x2 y2 : loc) :
  memo !! l = Some l' -> is_split h0 l a b' x1 y1 x2 y2 ->
  exists a' b'' x1' y1' x2' y2',
    is_split h l' a' b'' x1' y1' x2' y2' /\
    memo !! a = Some a' /\ memo !! b' = Some b'' /\
    memo !! x1 = Some x1' /\ memo !! y1 = Some y1' /\
    memo !! x2 = Some x2' /\ memo !! y2 = Some y2'.
Proof.
  intros Hl (Ha & Hb & Hx1 & Hy1 & Hx2 & Hy2).
  destruct (copy_points _ _ _ _ Hl Ha) as (a' & Ma & Pa).
  destruct (copy_points _ _ _ _ Hl Hb) as (b'' & Mb & Pb).
  destruct (copy_points _ _ _ _ Ma Hx1) as (x1' & Mx1 & Px1).
  destruct (copy_points _ _ _ _ Ma Hy1) as (y1' & My1 & Py1).
  destruct (copy_points _ _ _ _ Mb Hx2) as (x2' & Mx2 & Px2).
  destruct (copy_points _ _ _ _ Mb Hy2) as (y2' & My2 & Py2).
  exists a', b'', x1', y1', x2', y2'. repeat split; done.
Qed.

End Copies.

(** * Further properties of the pipeline *)

(** ** get_metrics: micro averaging *)






(** ** split_data: failures, new objects, schema *)

Lemma columns_filter (P : label -> Prop) `{!forall l, Decision (P l)}
    (cs : list (label * list cell)) :
  (filter (fun c => P c.1) cs).*1 = filter P cs.*1.
Proof.
  induction cs as [|c cs IH]; [done|].
  rewrite fmap_cons. destruct (decide (P c.1)) as [Hp|Hp].
  - rewrite !filter_cons_True by done. rewrite fmap_cons. by rewrite IH.
  - rewrite !filter_cons_False by done. done.
Qed.


Lemma filter_label_cons (l : label) (cs : list (label * list cell)) :
  l ∈ cs.*1 -> filter (fun c => c.1 = l) cs <> [].
Proof.
  intros Hin Hnil. apply list_elem_of_fmap in Hin as (c & -> & Hc).
  by apply (filter_nil_not_elem_of _ _ c Hnil).
Qed.

(** The features and the target [split_data] cuts a table into. *)
Definition features_of (l : label) (f : DataFrame) : DataFrame :=
  {| f_index := f_index f; f_columns := filter (fun c => c.1 <> l) (f_columns f) |}.

Definition target_of (l : label) (f : DataFrame) : DataFrame :=
  {| f_index := f_index f; f_columns := filter (fun c => c.1 = l) (f_columns f) |}.

Lemma drop_label_run l f :
  drop_label l f = if bool_decide (l ∈ columns f) then inr (features_of l f) else inl KeyError.
Proof. reflexivity. Qed.

Lemma getitem_list_single l f :
  l ∈ columns f -> getitem_list [l] f = inr (target_of l f).
Proof.
  intros Hin. unfold getitem_list, target_of. simpl.
  pose proof (filter_label_cons l (f_columns f) Hin) as Hne.
  destruct (filter (fun c => c.1 = l) (f_columns f)) as [|c cs] eqn:E; [done|].
  simpl. by rewrite app_nil_r.
Qed.

Lemma split_sizes_run n :
  split_sizes n = if bool_decide (n < 2) then inl ValueError
                  else inr (n - (n + 4) `div` 5, (n + 4) `div` 5).
Proof.
  unfold split_sizes.
  pose proof (Nat.div_mod (n + 4) 5 ltac:(lia)) as Hdm.
  pose proof (Nat.mod_upper_bound (n + 4) 5 ltac:(lia)) as Hub.
  revert Hdm Hub. generalize ((n + 4) `div` 5), ((n + 4) `mod` 5). intros q r Hdm Hub.
  cbv zeta. repeat case_bool_decide; try done; lia.
Qed.

Lemma split_data_table_run permutation w data y_on f :
  heap w !! data = Some (OFrame f) ->
  split_data permutation data y_on w =
    if bool_decide (Name y_on ∈ columns f) then
      if bool_decide (n_rows f < 2) then (w, inl ValueError)
      else
        let perm := permutation 42%Z (n_rows f) in
        let n_test := (n_rows f + 4) `div` 5 in
        (set_heap (heap w ++ split_objects (length (heap w))
                     (features_of (Name y_on) f) (target_of (Name y_on) f)
                     (take (n_rows f - n_test) (drop n_test perm)) (take n_test perm)) w,
         inr (length (heap w) + 6))
    else (w, inl KeyError).
Proof.
  intros Hdata. rewrite split_data_run, Hdata, drop_label_run.
  case_bool_decide as Hin; [|done].
  rewrite (getitem_list_single _ _ Hin).
  rewrite bool_decide_eq_false_2 by (intros H; by apply H).
  unfold split_indices. change (n_rows (features_of (Name y_on) f)) with (n_rows f).
  rewrite split_sizes_run. case_bool_decide; done.
Qed.

(** X2. How [split_data] fails on a table: with KeyError exactly when the
    target column is not a column of the table, with ValueError exactly when
    the column is there and the table has fewer than two rows (no row would
    be left for training), and it returns exactly when the column is there
    and the table has at least two rows. A failed call leaves the store, the
    output and the files as they were. *)
Theorem split_data_raises
    (permutation : Z -> nat -> list nat) (w : world) (data : loc) (y_on : string)
    (f : DataFrame) :
  heap w !! data = Some (OFrame f) ->
  (split_data permutation data y_on w = (w, inl KeyError) <-> Name y_on ∉ columns f) /\
  (split_data permutation data y_on w = (w, inl ValueError) <->
     Name y_on ∈ columns f /\ n_rows f < 2) /\
  ((exists w' s, split_data permutation data y_on w = (w', inr s)) <->
     Name y_on ∈ columns f /\ 2 <= n_rows f) /\
  (forall w' e, split_data permutation data y_on w = (w', inl e) -> w' = w).
Proof.
  intros Hdata. rewrite (split_data_table_run _ _ _ _ _ Hdata).
  case_bool_decide as Hin; [case_bool_decide as Hn|]; cbv zeta.
  - split; [|split; [|split]].
    + split; [discriminate|done].
    + split; [done|]. done.
    + split; [intros (w' & s & [=])|intros [_ ?]; lia].
    + by intros w' e [= <- _].
  - split; [|split; [|split]].
    + split; [discriminate|done].
    + split; [discriminate|intros [_ ?]; lia].
    + split; [intros _; split; [done|lia]|eauto].
    + intros w' e [=].
  - split; [|split; [|split]].
    + done.
    + split; [discriminate|by intros [? _]].
    + split; [intros (w' & s & [=])|by intros [? _]].
    + by intros w' e [= <- _].
Qed.

Lemma split_data_raises_witness :
  (split_data example_permutation 0 "n_children" example_table_world
     = (example_table_world, inl KeyError) <-> Name "n_children" ∉ columns example_table) /\
  (split_data example_permutation 0 "n_children" example_table_world
     = (example_table_world, inl ValueError) <->
     Name "n_children" ∈ columns example_table /\ n_rows example_table < 2) /\
  ((exists w' s, split_data example_permutation 0 "n_children" example_table_world
                 = (w', inr s)) <->
     Name "n_children" ∈ columns example_table /\ 2 <= n_rows example_table) /\
  (forall w' e, split_data example_permutation 0 "n_children" example_table_world
                = (w', inl e) -> w' = example_table_world).
Proof.
  apply (split_data_raises example_permutation example_table_world 0 "n_children"
           example_table).
  reflexivity.
Defined.

(** X3. The split that [split_data] returns is made of seven objects created
    by the call, pairwise distinct: the split, its two partitions and the four
    tables (so no table is shared between the partitions). These are the only
    objects added; the table given and every other object of the store stay
    as they were, nothing is printed and no file is touched. *)
Theorem split_data_new_objects
    (permutation : Z -> nat -> list nat) (w w' : world) (data s : loc)
    (y_on : string) :
  split_data permutation data y_on w = (w', inr s) ->
  exists a b' x1 y1 x2 y2 : loc,
    is_split (heap w') s a b' x1 y1 x2 y2 /\
    NoDup [s; a; b'; x1; y1; x2; y2] /\
    Forall (fun l : loc => length (heap w) <= l < length (heap w'))
      [s; a; b'; x1; y1; x2; y2] /\
    length (heap w') = length (heap w) + 7 /\
    heap w `prefix_of` heap w' /\
    stdout w' = stdout w /\ files w' = files w.
Proof.
  rewrite split_data_run.
  destruct (heap w !! data) as [[d|f|sr]|]; try discriminate.
  destruct (drop_label (Name y_on) f) as [e|X]; [discriminate|].
  destruct (getitem_list [Name y_on] f) as [e|y]; [discriminate|].
  case_bool_decide; [discriminate|].
  destruct (split_indices _ _) as [e|[ind_train ind_test]]; [discriminate|].
  intros [= <- <-]. cbn [heap set_heap stdout files].
  set (n := length (heap w)).
  exists (n + 4), (n + 5), (n + 0), (n + 2), (n + 1), (n + 3).
  split.
  { unfold is_split, points, split_objects, n.
    rewrite !lookup_app_plus. cbn [lookup list_lookup]. rewrite Nat.add_0_r.
    repeat split; eexists; (split; [reflexivity|by simplify_map_eq]). }
  split.
  { repeat (apply NoDup_cons; split;
      [intros Hin; repeat (apply elem_of_cons in Hin as [Hin|Hin]; [lia|]);
       by apply elem_of_nil in Hin|]).
    apply NoDup_nil_2. }
  split.
  { rewrite length_app. cbn [length split_objects].
    repeat (apply Forall_cons; split; [lia|]). constructor. }
  split; [by rewrite length_app|].
  split; [by apply prefix_app_r|done].
Qed.

Lemma split_data_new_objects_witness :
  let w' := (split_data example_permutation 0 "class" example_table_world).1 in
  exists a b' x1 y1 x2 y2 : loc,
    is_split (heap w') 7 a b' x1 y1 x2 y2 /\
    NoDup [7; a; b'; x1; y1; x2; y2] /\
    Forall (fun l : loc => length (heap example_table_world) <= l < length (heap w'))
      [7; a; b'; x1; y1; x2; y2] /\
    length (heap w') = length (heap example_table_world) + 7 /\
    heap example_table_world `prefix_of` heap w' /\
    stdout w' = stdout example_table_world /\ files w' = files example_table_world.
Proof.
  intros w'.
  apply (split_data_new_objects example_permutation example_table_world w' 0 7 "class").
  vm_compute. reflexivity.
Defined.

Lemma filter_label_NoDup (l : label) (ls : list label) :
  NoDup ls -> l ∈ ls -> filter (fun x => x = l) ls = [l].
Proof.
  induction 1 as [|x ls Hx Hnd IH]; [by intros ?%elem_of_nil|].
  intros Hin. destruct (decide (x = l)) as [->|Hne].
  - rewrite filter_cons_True by done. f_equal.
    clear IH Hin Hnd. induction ls as [|z ls IH]; [done|].
    apply not_elem_of_cons in Hx as [Hz Hx].
    rewrite filter_cons_False by done. by apply IH.
  - rewrite filter_cons_False by done. apply IH.
    apply elem_of_cons in Hin as [->|Hin]; done.
Qed.

(** X4. The schema of a split: both feature tables have the columns of the
    input table other than the target, in their order; both target tables
    have the columns labelled with the target (exactly one when the labels of
    the input are unique); and in each partition the features and the target
    carry the same row labels, so they stay aligned row by row. *)
Theorem split_data_columns
    (permutation : Z -> nat -> list nat) (w w' : world) (data s : loc)
    (y_on : string) (f : DataFrame) :
  heap w !! data = Some (OFrame f) ->
  split_data permutation data y_on w = (w', inr s) ->
  exists Xtr ytr Xte yte : DataFrame,
    split_content (heap w') s (OFrame Xtr) (OFrame ytr) (OFrame Xte) (OFrame yte) /\
    columns Xtr = filter (fun l => l <> Name y_on) (columns f) /\
    columns Xte = filter (fun l => l <> Name y_on) (columns f) /\
    columns ytr = filter (fun l => l = Name y_on) (columns f) /\
    columns yte = filter (fun l => l = Name y_on) (columns f) /\
    (NoDup (columns f) -> columns ytr = [Name y_on] /\ columns yte = [Name y_on]) /\
    f_index Xtr = f_index ytr /\ f_index Xte = f_index yte.
Proof.
  intros Hdata. rewrite (split_data_table_run _ _ _ _ _ Hdata).
  case_bool_decide as Hin; [|discriminate].
  case_bool_decide as Hn; [discriminate|]. cbv zeta. intros [= <- <-].
  eexists _, _, _, _. split; [apply split_objects_content|].
  rewrite !columns_take_rows. unfold columns, features_of, target_of.
  cbn [f_columns].
  pose proof (columns_filter (fun l => l <> Name y_on) (f_columns f)) as E1.
  pose proof (columns_filter (fun l => l = Name y_on) (f_columns f)) as E2.
  cbv beta in E1, E2. rewrite E1, E2.
  repeat split; try done.
  all: by apply filter_label_NoDup.
Qed.

Lemma split_data_columns_witness :
  let w' := (split_data example_permutation 0 "class" example_table_world).1 in
  exists Xtr ytr Xte yte : DataFrame,
    split_content (heap w') 7 (OFrame Xtr) (OFrame ytr) (OFrame Xte) (OFrame yte) /\
    columns Xtr = filter (fun l => l <> Name "class") (columns example_table) /\
    columns Xte = filter (fun l => l <> Name "class") (columns example_table) /\
    columns ytr = filter (fun l => l = Name "class") (columns example_table) /\
    columns yte = filter (fun l => l = Name "class") (columns example_table) /\
    (NoDup (columns example_table) ->
       columns ytr = [Name "class"] /\ columns yte = [Name "class"]) /\
    f_index Xtr = f_index ytr /\ f_index Xte = f_index yte.
Proof.
  intros w'.
  apply (split_data_columns example_permutation example_table_world w' 0 7 "class"
           example_table).
  - reflexivity.
  - vm_compute. reflexivity.
Defined.

(** ** load_data: the table holds the records of the file *)

Lemma parse_csv_inr rows f :
  parse_csv rows = inr f ->
  exists first rest, rows = first :: rest /\
    Forall (fun r => length r <= length first) rows /\
    f_index f = map Z.of_nat (seq 0 (length rows)) /\
    f_columns f =
      map (fun j => (Pos j, map (fun r : list cell => default None (r !! j)) rows))
          (seq 0 (length first)).
Proof.
  unfold parse_csv. destruct rows as [|first rest]; [discriminate|].
  case_bool_decide as Hall; [|discriminate]. intros [= <-].
  exists first, rest. done.
Qed.

(** X5. What [load_data] returns is the file, cell by cell: the result is a
    new table, the only object added to the store, with one row per record of
    the file, labelled 0, 1, ... in order; column [j] carries the [j]-th of
    the ten fixed names and holds, at row [i], field [j] of record [i], or NaN
    where that record is shorter than ten fields. No record is longer than
    ten fields, nothing is printed and the files are left as they were. *)
Theorem load_data_cells (w w' : world) (data_dir data_file : string) (l : loc) :
  load_data data_dir data_file w = (w', inr l) ->
  exists (rows : csv_file) (f : DataFrame),
    files w !! path_join data_dir data_file = Some rows /\
    heap w' = heap w ++ [OFrame f] /\ l = length (heap w) /\
    stdout w' = stdout w /\ files w' = files w /\
    columns f = column_names /\
    f_index f = map Z.of_nat (seq 0 (length rows)) /\
    Forall (fun r => length r <= 10) rows /\
    forall (j : nat) (name : label) (col : list cell),
      f_columns f !! j = Some (name, col) ->
      column_names !! j = Some name /\
      length col = length rows /\
      forall (i : nat) (r : list cell),
        rows !! i = Some r -> col !! i = Some (default None (r !! j)).
Proof.
  pose proof (load_data_outcomes w data_dir data_file) as H.
  destruct (files w !! path_join data_dir data_file) as [rows|]; [|by rewrite H].
  destruct (parse_csv rows) as [e|f0] eqn:Hparse; [by rewrite H|].
  case_bool_decide as Hten; [|by rewrite H].
  destruct H as (-> & Hcols & Hvals & Hidx). intros [= <- <-].
  apply parse_csv_inr in Hparse as (first & rest & Hrows & Hall & Hi & Hc).
  assert (Hk : length first = 10) by (by rewrite Hc, length_fmap, length_seq in Hten).
  exists rows, (relabelled f0).
  split; [done|]. split; [done|]. split; [done|]. split; [done|]. split; [done|].
  split; [done|]. split; [by rewrite Hidx|]. split; [by rewrite <- Hk|].
  intros j name col Hj. unfold relabelled in Hj. cbn [f_columns] in Hj.
  apply lookup_zip_with_Some in Hj as (name' & col' & [= <- <-] & Hname & Hcol).
  split; [done|].
  rewrite Hc, <- list_fmap_compose, list_lookup_fmap in Hcol.
  destruct (seq 0 (length first) !! j) as [j'|] eqn:Hseq; [|discriminate].
  apply lookup_seq in Hseq as [-> _]. simpl in Hcol. injection Hcol as <-.
  split; [by rewrite length_fmap|].
  intros i r Hr. unfold csv_file in *. rewrite list_lookup_fmap. by rewrite Hr.
Qed.

(** A file of two records, the second one short. *)
Definition two_record_world : world :=
  {| heap := []; stdout := [];
     files := {[ "../data/cmc.data" :=
                   [ cells [24; 2; 3; 3; 1; 1; 2; 3; 0; 1]%Z;
                     cells [45; 1; 3; 10; 1; 1; 3; 4; 0]%Z ] ]} |}.

Lemma load_data_cells_witness :
  exists (rows : csv_file) (f : DataFrame),
    files two_record_world !! path_join "../data" "cmc.data" = Some rows /\
    heap (load_data "../data" "cmc.data" two_record_world).1
      = heap two_record_world ++ [OFrame f] /\
    0 = length (heap two_record_world) /\
    stdout (load_data "../data" "cmc.data" two_record_world).1 = stdout two_record_world /\
    files (load_data "../data" "cmc.data" two_record_world).1 = files two_record_world /\
    columns f = column_names /\
    f_index f = map Z.of_nat (seq 0 (length rows)) /\
    Forall (fun r => length r <= 10) rows /\
    forall (j : nat) (name : label) (col : list cell),
      f_columns f !! j = Some (name, col) ->
      column_names !! j = Some name /\
      length col = length rows /\
      forall (i : nat) (r : list cell),
        rows !! i = Some r -> col !! i = Some (default None (r !! j)).
Proof.
  apply (load_data_cells two_record_world _ "../data" "cmc.data" 0).
  vm_compute. reflexivity.
Defined.

(** ** discretize_data: the result is separate from the input *)

(** [l'] is reached from [l] through the entries of dicts. *)
Inductive reach (h : list object) : loc -> loc -> Prop :=
| reach_here (l : loc) : reach h l l
| reach_entry (l : loc) d k (v l' : loc) :
    h !! l = Some (ODict d) -> d !! k = Some v -> reach h v l' -> reach h l l'.

Lemma safe_discretize_data_new h0 data continuous_attrs n_bins y_on :
  safe h0 (discretize_data data continuous_attrs n_bins y_on)
    (fun r => length h0 <= r).
Proof.
  unfold discretize_data.
  do 5 safe_step.
  repeat case_bool_decide.
  - repeat safe_step. by apply safe_ret.
  - repeat safe_step. by apply safe_ret.
  - by apply safe_ret.
Qed.

Lemma reach_new h0 w (r l : loc) :
  extends h0 w -> length h0 <= r -> reach (heap w) r l -> length h0 <= l.
Proof.
  intros [_ Hcl] Hr Hreach. induction Hreach as [l|l d k v l' Hl Hk _ IH]; [done|].
  apply IH. exact (Hcl l (ODict d) Hr Hl k v Hk).
Qed.

(** X6. The split that [discretize_data] returns shares no object with its
    input: whatever the mode, the split returned and every object reached
    from it through dict entries (its partitions, their tables, and anything
    else the dicts hold) was created during the call; none is an object that
    existed before (those have the addresses below [length (heap w)]). So a
    later write through the result cannot change the caller's data. *)
Theorem discretize_data_result_is_separate
    (w w' : world) (data r : loc) (continuous_attrs : list label) (n_bins : Z)
    (y_on : string) :
  discretize_data data continuous_attrs n_bins y_on w = (w', inr r) ->
  forall l : loc, reach (heap w') r l -> length (heap w) <= l.
Proof.
  intros Hrun l Hreach.
  pose proof (safe_discretize_data_new (heap w) data continuous_attrs n_bins y_on w) as H.
  rewrite Hrun in H. destruct H as [Hext Hr].
  { split; [done|]. intros l0 o Hl0 Hlook. apply lookup_lt_Some in Hlook. lia. }
  exact (reach_new _ _ _ _ Hext Hr Hreach).
Qed.

Lemma discretize_data_result_is_separate_witness :
  (discretize_data 6 [Name "a"] 2 "class" example_world).2 = inr 7 /\
  forall l : loc,
    reach (heap (discretize_data 6 [Name "a"] 2 "class" example_world).1) 7 l ->
    length (heap example_world) <= l.
Proof.
  split; [vm_compute; reflexivity|].
  apply (discretize_data_result_is_separate example_world _ 6 7 [Name "a"] 2 "class").
  vm_compute. reflexivity.
Defined.

(** ** discretize_data: a target name that is not handled *)

(** An object that is not a dict: a table or a series. *)
Definition is_table (o : object) : Prop :=
  match o with ODict _ => False | _ => True end.

Lemma is_table_not_dict o : is_table o -> forall d, o <> ODict d.
Proof. by destruct o. Qed.

(** The deep copy of a split of tables: a split of new objects holding the
    same four tables, distinct where the originals are. *)
Lemma deepcopy_split w (data a b' x1 y1 x2 y2 : loc) (Xtr ytr Xte yte : object) :
  shallow (heap w) recursion_limit data = true ->
  is_split (heap w) data a b' x1 y1 x2 y2 ->
  heap w !! x1 = Some Xtr -> heap w !! y1 = Some ytr ->
  heap w !! x2 = Some Xte -> heap w !! y2 = Some yte ->
  is_table Xtr -> is_table ytr -> is_table Xte -> is_table yte ->
  exists w1 memo (ds a1 b1 x1' y1' x2' y2' : loc),
    deepcopy data w = (w1, inr ds) /\
    copying (heap w) (fun _ => False) memo (heap w1) /\
    is_split (heap w1) ds a1 b1 x1' y1' x2' y2' /\
    memo !! x1 = Some x1' /\ memo !! y1 = Some y1' /\
    memo !! x2 = Some x2' /\ memo !! y2 = Some y2' /\
    heap w1 !! x1' = Some Xtr /\ heap w1 !! y1' = Some ytr /\
    heap w1 !! x2' = Some Xte /\ heap w1 !! y2' = Some yte /\
    length (heap w) <= ds /\
    stdout w1 = stdout w /\ files w1 = files w.
Proof.
  intros Hsh Hsplit H1 H2 H3 H4 T1 T2 T3 T4.
  destruct (deepcopy_run w data Hsh) as (w1 & memo & ds & E & Hcopy & Hds & Ho & Hf).
  destruct (copy_is_split _ _ _ Hcopy _ _ _ _ _ _ _ _ Hds Hsplit)
    as (a1 & b1 & x1' & y1' & x2' & y2' & Hs1 & Ma & Mb & Mx1 & My1 & Mx2 & My2).
  exists w1, memo, ds, a1, b1, x1', y1', x2', y2'.
  split; [done|]. split; [done|]. split; [done|].
  split; [done|]. split; [done|]. split; [done|]. split; [done|].
  split; [by eapply copy_leaf; [| | |apply is_table_not_dict]|].
  split; [by eapply copy_leaf; [| | |apply is_table_not_dict]|].
  split; [by eapply copy_leaf; [| | |apply is_table_not_dict]|].
  split; [by eapply copy_leaf; [| | |apply is_table_not_dict]|].
  split; [by eapply copy_new|done].
Qed.



(** ** discretize_data: the 'class' mode *)

Lemma frame_getitem_list_run w (l : loc) ls f :
  heap w !! l = Some (OFrame f) ->
  frame_getitem_list l ls w = (w, getitem_list ls f).
Proof.
  intros Hl. unfold frame_getitem_list.
  by rewrite (bind_step _ _ _ _ _ (load_frame_run _ _ _ Hl)).
Qed.

Lemma frame_setitem_list_run w (l : loc) ls vss f :
  heap w !! l = Some (OFrame f) ->
  frame_setitem_list l ls vss w =
    match set_columns ls vss f with
    | inl e => (w, inl e)
    | inr f' => (set_heap (<[l := OFrame f']> (heap w)) w, inr tt)
    end.
Proof.
  intros Hl. unfold frame_setitem_list.
  rewrite (bind_step _ _ _ _ _ (load_frame_run _ _ _ Hl)), bind_lift.
  by destruct (set_columns ls vss f).
Qed.

Lemma bind_getitem_list {B} w (l : loc) ls f (k : DataFrame -> M B) :
  heap w !! l = Some (OFrame f) ->
  (frame_getitem_list l ls ≫= k) w =
    match getitem_list ls f with inl e => (w, inl e) | inr g => k g w end.
Proof.
  intros Hl. rewrite bind_run, (frame_getitem_list_run _ _ _ _ Hl).
  by destruct (getitem_list ls f).
Qed.

Lemma bind_setitem_list {B} w (l : loc) ls vss f (k : unit -> M B) :
  heap w !! l = Some (OFrame f) ->
  (frame_setitem_list l ls vss ≫= k) w =
    match set_columns ls vss f with
    | inl e => (w, inl e)
    | inr f' => k tt (set_heap (<[l := OFrame f']> (heap w)) w)
    end.
Proof.
  intros Hl. rewrite bind_run, (frame_setitem_list_run _ _ _ _ _ Hl).
  by destruct (set_columns ls vss f).
Qed.

(** Writing to a dict the value it already holds changes nothing. *)
Lemma dict_set2_same w (l a : loc) k1 k2 (v : loc) :
  points (heap w) l k1 a -> points (heap w) a k2 v ->
  dict_set2 l k1 k2 v w = (w, inr tt).
Proof.
  intros Hl (d & Ha & Hk). unfold dict_set2.
  rewrite (bind_step _ _ _ _ _ (dict_get_run _ _ _ _ Hl)).
  rewrite (dict_set_run _ _ _ _ _ Ha).
  rewrite insert_id by done. rewrite list_insert_id by done.
  by destruct w.
Qed.

(** The 'class' mode on the two feature tables: the bins are fitted on the
    continuous columns of the training table, and applied to the continuous
    columns of both tables. *)
Definition fit_on (continuous_attrs : list label) (n_bins : Z) (X : DataFrame)
  : res (list bins) :=
  do sel <- getitem_list continuous_attrs X; fit n_bins sel.

Definition apply_bins (est : list bins) (continuous_attrs : list label)
    (X : DataFrame) : res DataFrame :=
  do sel <- getitem_list continuous_attrs X;
  do arr <- transform est sel;
  set_columns continuous_attrs arr X.

Definition discretize_frames (continuous_attrs : list label) (n_bins : Z)
    (X_train X_test : DataFrame) : res (DataFrame * DataFrame) :=
  do est <- fit_on continuous_attrs n_bins X_train;
  do X_train' <- apply_bins est continuous_attrs X_train;
  do X_test' <- apply_bins est continuous_attrs X_test;
  inr (X_train', X_test').

(** A split of tables, as [split_data] makes them: the two feature tables
    are distinct objects, and neither serves as a target. *)
Definition plain_split (h : list object) (data : loc)
    (X_train : DataFrame) (y_train : object) (X_test : DataFrame) (y_test : object)
  : Prop :=
  exists a b' x1 y1 x2 y2 : loc,
    is_split h data a b' x1 y1 x2 y2 /\
    h !! x1 = Some (OFrame X_train) /\ h !! y1 = Some y_train /\
    h !! x2 = Some (OFrame X_test) /\ h !! y2 = Some y_test /\
    is_table y_train /\ is_table y_test /\
    x1 <> x2 /\ y1 <> x1 /\ y1 <> x2 /\ y2 <> x1 /\ y2 <> x2.

Lemma discretize_data_class_run w (data : loc)
    (continuous_attrs : list label) (n_bins : Z)
    (fX1 fX2 : DataFrame) (ytr yte : object) :
  shallow (heap w) recursion_limit data = true ->
  plain_split (heap w) data fX1 ytr fX2 yte ->
  match discretize_frames continuous_attrs n_bins fX1 fX2 with
  | inr (fX1', fX2') =>
      exists (w' : world) (r : loc),
        discretize_data data continuous_attrs n_bins "class" w = (w', inr r) /\
        length (heap w) <= r /\
        split_content (heap w') r (OFrame fX1') ytr (OFrame fX2') yte /\
        stdout w' = stdout w /\ files w' = files w
  | inl e =>
      exists w' : world,
        discretize_data data continuous_attrs n_bins "class" w = (w', inl e) /\
        stdout w' = stdout w /\ files w' = files w
  end.
Proof.
  intros Hsh (a & b' & x1 & y1 & x2 & y2 & Hsplit & H1 & H2 & H3 & H4 & T2 & T4
                & Nx & Ny11 & Ny12 & Ny21 & Ny22).
  destruct (deepcopy_split w data a b' x1 y1 x2 y2 _ _ _ _
              Hsh Hsplit H1 H2 H3 H4 I T2 I T4)
    as (w1 & memo & ds & a1 & b1 & x1' & y1' & x2' & y2' & E & Hcopy & Hs1
        & Mx1 & My1 & Mx2 & My2 & L1 & L2 & L3 & L4 & Hnew & Ho & Hf).
  assert (Dx : x1' <> x2').
  { intros ->. apply Nx. exact (copy_inj _ _ _ Hcopy _ _ _ Mx1 Mx2). }
  assert (D11 : y1' <> x1').
  { intros ->. apply Ny11. exact (copy_inj _ _ _ Hcopy _ _ _ My1 Mx1). }
  assert (D12 : y1' <> x2').
  { intros ->. apply Ny12. exact (copy_inj _ _ _ Hcopy _ _ _ My1 Mx2). }
  assert (D21 : y2' <> x1').
  { intros ->. apply Ny21. exact (copy_inj _ _ _ Hcopy _ _ _ My2 Mx1). }
  assert (D22 : y2' <> x2').
  { intros ->. apply Ny22. exact (copy_inj _ _ _ Hcopy _ _ _ My2 Mx2). }
  pose proof Hs1 as (Ha & Hb & Px1 & Py1 & Px2 & Py2).
  unfold discretize_data.
  rewrite (bind_step _ _ _ _ _ E).
  rewrite (bind_step _ _ _ _ _ (dict_get2_run _ _ _ _ _ _ Ha Px1)).
  rewrite (bind_step _ _ _ _ _ (dict_get2_run _ _ _ _ _ _ Hb Px2)).
  rewrite (bind_step _ _ _ _ _ (dict_get2_run _ _ _ _ _ _ Ha Py1)).
  rewrite (bind_step _ _ _ _ _ (dict_get2_run _ _ _ _ _ _ Hb Py2)).
  rewrite bool_decide_eq_true_2 by done.
  unfold discretize_frames, fit_on, apply_bins.
  rewrite (bind_getitem_list _ _ _ _ _ L1).
  destruct (getitem_list continuous_attrs fX1) as [e|sel1] eqn:G1; cbn [rbind];
    [by eauto|].
  rewrite bind_lift.
  destruct (fit n_bins sel1) as [e|est]; cbn [rbind]; [by eauto|].
  rewrite (bind_getitem_list _ _ _ _ _ L1), G1.
  rewrite bind_lift.
  destruct (transform est sel1) as [e|arr1]; cbn [rbind]; [by eauto|].
  rewrite (bind_setitem_list _ _ _ _ _ _ L1).
  destruct (set_columns continuous_attrs arr1 fX1) as [e|fX1']; cbn [rbind]; [by eauto|].
  set (w2 := set_heap (<[x1' := OFrame fX1']> (heap w1)) w1).
  assert (L3' : heap w2 !! x2' = Some (OFrame fX2)).
  { unfold w2. cbn. by rewrite list_lookup_insert_ne. }
  rewrite (bind_getitem_list _ _ _ _ _ L3').
  destruct (getitem_list continuous_attrs fX2) as [e|sel2]; cbn [rbind]; [by eauto|].
  rewrite bind_lift.
  destruct (transform est sel2) as [e|arr2]; cbn [rbind]; [by eauto|].
  rewrite (bind_setitem_list _ _ _ _ _ _ L3').
  destruct (set_columns continuous_attrs arr2 fX2) as [e|fX2']; cbn [rbind]; [by eauto|].
  set (w3 := set_heap (<[x2' := OFrame fX2']> (heap w2)) w2).
  assert (Hs3 : is_split (heap w3) ds a1 b1 x1' y1' x2' y2').
  { unfold w3, w2. cbn.
    repeat split; (eapply points_frame_update; [exact L3'|]);
      (eapply points_frame_update; [exact L1|]); done. }
  pose proof Hs3 as (Ha3 & Hb3 & Px13 & Py13 & Px23 & Py23).
  rewrite (bind_step _ _ _ _ _ (dict_set2_same _ _ _ _ _ _ Ha3 Px13)).
  rewrite (bind_step _ _ _ _ _ (dict_set2_same _ _ _ _ _ _ Hb3 Px23)).
  exists w3, ds. split; [done|]. split; [done|]. split; [|done].
  exists a1, b1, x1', y1', x2', y2'. split; [done|].
  unfold w3, w2. cbn.
  assert (Hlt1 : x1' < length (heap w1)) by (by eapply lookup_lt_Some).
  assert (Hlt2 : x2' < length (heap w1)) by (by eapply lookup_lt_Some).
  split; [|split; [|split]].
  - rewrite list_lookup_insert_ne by done. by apply list_lookup_insert_eq.
  - by rewrite !list_lookup_insert_ne.
  - apply list_lookup_insert_eq. by rewrite length_insert.
  - by rewrite !list_lookup_insert_ne.
Qed.

(** The four tables of the sample split. *)
Definition example_X_train : DataFrame :=
  {| f_index := [0; 1; 2]%Z;
     f_columns := [(Name "a", cells [0; 10; 4]%Z); (Name "b", cells [1; 1; 1]%Z)] |}.

Definition example_y_train : DataFrame :=
  {| f_index := [0; 1; 2]%Z; f_columns := [(Name "class", cells [1; 2; 3]%Z)] |}.

Definition example_X_test : DataFrame :=
  {| f_index := [3; 4]%Z;
     f_columns := [(Name "a", cells [3; 20]%Z); (Name "b", cells [1; 2]%Z)] |}.

Definition example_y_test : DataFrame :=
  {| f_index := [3; 4]%Z; f_columns := [(Name "class", cells [1; 2]%Z)] |}.

Lemma example_plain_split :
  plain_split example_heap 6 example_X_train (OFrame example_y_train)
    example_X_test (OFrame example_y_test).
Proof.
  exists 4, 5, 0, 1, 2, 3. split; [exact example_is_split|].
  repeat split; try reflexivity; discriminate.
Qed.

Lemma example_shallow : shallow (heap example_world) recursion_limit 6 = true.
Proof. vm_compute. reflexivity. Qed.



Lemma discretize_frames_inr continuous_attrs n_bins X_train X_test X_train' X_test' :
  discretize_frames continuous_attrs n_bins X_train X_test = inr (X_train', X_test') ->
  exists est,
    fit_on continuous_attrs n_bins X_train = inr est /\
    apply_bins est continuous_attrs X_train = inr X_train' /\
    apply_bins est continuous_attrs X_test = inr X_test'.
Proof.
  unfold discretize_frames. intros H.
  apply rbind_inr in H as (est & Hest & H).
  apply rbind_inr in H as (f1 & Hf1 & H).
  apply rbind_inr in H as (f2 & Hf2 & [= <- <-]). eauto.
Qed.

(** A successful run in 'class' mode, read back as the pure function. *)
Lemma discretize_data_class_inr w w' (data r : loc) continuous_attrs n_bins
    X_train y_train X_test y_test :
  shallow (heap w) recursion_limit data = true ->
  plain_split (heap w) data X_train y_train X_test y_test ->
  discretize_data data continuous_attrs n_bins "class" w = (w', inr r) ->
  exists X_train' X_test',
    discretize_frames continuous_attrs n_bins X_train X_test = inr (X_train', X_test') /\
    split_content (heap w') r (OFrame X_train') y_train (OFrame X_test') y_test.
Proof.
  intros Hsh Hsplit Hrun.
  pose proof (discretize_data_class_run w data continuous_attrs n_bins _ _ _ _ Hsh Hsplit)
    as H.
  destruct (discretize_frames continuous_attrs n_bins X_train X_test) as [e|[f1 f2]].
  - destruct H as (w1 & H & _). congruence.
  - destruct H as (w1 & r1 & H & _ & Hc & _).
    assert (w1 = w' /\ r1 = r) as [-> ->] by (split; congruence). eauto.
Qed.

(** X9. No test data reaches the bins in 'class' mode. Take two calls that
    return, on splits with the same training features but any test features,
    targets and stores: the bins fitted are the same, those of the training
    features alone; the training features returned are the same table; and
    each test table returned is its input with those bins applied. *)
Theorem discretize_data_class_train_only
    (w1 w2 w1' w2' : world) (data1 data2 r1 r2 : loc)
    (continuous_attrs : list label) (n_bins : Z)
    (X_train X_test1 X_test2 : DataFrame) (y_train1 y_test1 y_train2 y_test2 : object) :
  shallow (heap w1) recursion_limit data1 = true ->
  plain_split (heap w1) data1 X_train y_train1 X_test1 y_test1 ->
  shallow (heap w2) recursion_limit data2 = true ->
  plain_split (heap w2) data2 X_train y_train2 X_test2 y_test2 ->
  discretize_data data1 continuous_attrs n_bins "class" w1 = (w1', inr r1) ->
  discretize_data data2 continuous_attrs n_bins "class" w2 = (w2', inr r2) ->
  exists (est : list bins) (X_train' X_test1' X_test2' : DataFrame),
    fit_on continuous_attrs n_bins X_train = inr est /\
    apply_bins est continuous_attrs X_train = inr X_train' /\
    apply_bins est continuous_attrs X_test1 = inr X_test1' /\
    apply_bins est continuous_attrs X_test2 = inr X_test2' /\
    split_content (heap w1') r1 (OFrame X_train') y_train1 (OFrame X_test1') y_test1 /\
    split_content (heap w2') r2 (OFrame X_train') y_train2 (OFrame X_test2') y_test2.
Proof.
  intros Hsh1 Hs1 Hsh2 Hs2 Hrun1 Hrun2.
  destruct (discretize_data_class_inr _ _ _ _ _ _ _ _ _ _ Hsh1 Hs1 Hrun1)
    as (f1 & g1 & Hd1 & Hc1).
  destruct (discretize_data_class_inr _ _ _ _ _ _ _ _ _ _ Hsh2 Hs2 Hrun2)
    as (f2 & g2 & Hd2 & Hc2).
  apply discretize_frames_inr in Hd1 as (est1 & He1 & Ht1 & Hg1).
  apply discretize_frames_inr in Hd2 as (est2 & He2 & Ht2 & Hg2).
  assert (est2 = est1) as -> by congruence.
  assert (f2 = f1) as -> by congruence.
  exists est1, f1, g1, g2. done.
Qed.

(** The sample split with other test rows. *)
Definition other_X_test : DataFrame :=
  {| f_index := [7]%Z;
     f_columns := [(Name "a", cells [-5]%Z); (Name "b", cells [9]%Z)] |}.

Definition other_y_test : DataFrame :=
  {| f_index := [7]%Z; f_columns := [(Name "class", cells [3]%Z)] |}.

Definition other_test_world : world :=
  {| heap := [ OFrame example_X_train; OFrame example_y_train;
               OFrame other_X_test; OFrame other_y_test;
               ODict {[ "X" := 0; "y" := 1 ]};
               ODict {[ "X" := 2; "y" := 3 ]};
               ODict {[ "train" := 4; "test" := 5 ]} ];
     stdout := ["earlier output"]; files := ∅ |}.

Lemma other_plain_split :
  plain_split (heap other_test_world) 6 example_X_train (OFrame example_y_train)
    other_X_test (OFrame other_y_test).
Proof.
  exists 4, 5, 0, 1, 2, 3. split.
  - repeat split; eexists; (split; [reflexivity|]); reflexivity.
  - repeat split; try reflexivity; discriminate.
Qed.

Lemma discretize_data_class_train_only_witness :
  exists (est : list bins) (X_train' X_test1' X_test2' : DataFrame),
    fit_on [Name "a"] 2 example_X_train = inr est /\
    apply_bins est [Name "a"] example_X_train = inr X_train' /\
    apply_bins est [Name "a"] example_X_test = inr X_test1' /\
    apply_bins est [Name "a"] other_X_test = inr X_test2' /\
    split_content (heap (discretize_data 6 [Name "a"] 2 "class" example_world).1) 7
      (OFrame X_train') (OFrame example_y_train)
      (OFrame X_test1') (OFrame example_y_test) /\
    split_content (heap (discretize_data 6 [Name "a"] 2 "class" other_test_world).1) 7
      (OFrame X_train') (OFrame example_y_train)
      (OFrame X_test2') (OFrame other_y_test).
Proof.
  apply (discretize_data_class_train_only example_world other_test_world _ _ 6 6 7 7
           [Name "a"] 2 example_X_train example_X_test other_X_test).
  - vm_compute. reflexivity.
  - exact example_plain_split.
  - vm_compute. reflexivity.
  - exact other_plain_split.
  - vm_compute. reflexivity.
  - vm_compute. reflexivity.
Defined.

(** ** discretize_data in 'class' mode: what is left alone, and failures *)

(** [f'] is [f] in everything but the cells of the columns labelled in [ls]:
    same row labels, same column labels in the same order, same cells in
    every other column. *)
Definition same_but (ls : list label) (f f' : DataFrame) : Prop :=
  f_index f' = f_index f /\ columns f' = columns f /\
  forall (j : nat) c col,
    f_columns f !! j = Some (c, col) -> c ∉ ls -> f_columns f' !! j = Some (c, col).

Lemma columns_set_column l vs f :
  l ∈ columns f -> columns (set_column l vs f) = columns f.
Proof.
  intros Hin. unfold columns, set_column. cbn [f_columns].
  rewrite bool_decide_eq_true_2 by done.
  rewrite <- list_fmap_compose. apply list_fmap_ext.
  intros i c _. simpl. by case_bool_decide.
Qed.

Lemma set_columns_same_but ls vss f f' :
  set_columns ls vss f = inr f' -> same_but ls f f'.
Proof.
  revert vss f. induction ls as [|l ls IH]; intros [|vs vss] f; simpl; try discriminate.
  - intros [= <-]. by repeat split.
  - case_bool_decide as Hl; [|discriminate]. intros H.
    destruct (IH _ _ H) as (Hi & Hc & Hcells).
    split; [by rewrite Hi|]. split; [by rewrite Hc, columns_set_column|].
    intros j c col Hj Hnot. apply not_elem_of_cons in Hnot as [Hne Hnot].
    apply Hcells; [|done]. unfold set_column. cbn [f_columns].
    rewrite bool_decide_eq_true_2 by done.
    rewrite list_lookup_fmap, Hj. simpl. by rewrite bool_decide_eq_false_2.
Qed.

Lemma apply_bins_same_but est ls f f' :
  apply_bins est ls f = inr f' -> same_but ls f f'.
Proof.
  unfold apply_bins. intros H.
  apply rbind_inr in H as (sel & _ & H). apply rbind_inr in H as (arr & _ & H).
  by eapply set_columns_same_but.
Qed.

(** X10. What 'class' mode leaves alone. When the call returns, on a split
    of tables whose feature tables are distinct objects not used as targets,
    the targets of the result are those of the input, and each feature table
    of the result has the row labels of its input, the same column labels in
    the same order, and, in every column not named in [continuous_attrs],
    the same cells. *)
Theorem discretize_data_class_keeps_rest
    (w w' : world) (data r : loc) (continuous_attrs : list label) (n_bins : Z)
    (X_train X_test : DataFrame) (y_train y_test : object) :
  shallow (heap w) recursion_limit data = true ->
  plain_split (heap w) data X_train y_train X_test y_test ->
  discretize_data data continuous_attrs n_bins "class" w = (w', inr r) ->
  exists X_train' X_test' : DataFrame,
    split_content (heap w') r (OFrame X_train') y_train (OFrame X_test') y_test /\
    same_but continuous_attrs X_train X_train' /\
    same_but continuous_attrs X_test X_test'.
Proof.
  intros Hsh Hs Hrun.
  destruct (discretize_data_class_inr _ _ _ _ _ _ _ _ _ _ Hsh Hs Hrun)
    as (f1 & f2 & Hd & Hc).
  apply discretize_frames_inr in Hd as (est & _ & H1 & H2).
  exists f1, f2. split; [done|].
  split; by eapply apply_bins_same_but.
Qed.

Lemma discretize_data_class_keeps_rest_witness :
  exists X_train' X_test' : DataFrame,
    split_content (heap (discretize_data 6 [Name "a"] 2 "class" example_world).1) 7
      (OFrame X_train') (OFrame example_y_train)
      (OFrame X_test') (OFrame example_y_test) /\
    same_but [Name "a"] example_X_train X_train' /\
    same_but [Name "a"] example_X_test X_test'.
Proof.
  apply (discretize_data_class_keeps_rest example_world _ 6 7 [Name "a"] 2).
  - vm_compute. reflexivity.
  - exact example_plain_split.
  - vm_compute. reflexivity.
Defined.










(** ** run_scikit_experiment: a run that returns *)

Lemma points_inj h (l : loc) k (v v' : loc) : points h l k v -> points h l k v' -> v = v'.
Proof. intros (d & Hl & Hk) (d' & Hl' & Hk'). congruence. Qed.

Lemma get_metrics_inr y_true y_pred avg prec m :
  get_metrics y_true y_pred avg prec = inr m -> length y_true = length y_pred.
Proof.
  unfold get_metrics, accuracy_score. case_bool_decide as Hlen; [discriminate|].
  intros _. destruct (decide (length y_true = length y_pred)); [done|contradiction].
Qed.

Lemma get_metrics_bounds y_true y_pred avg prec m :
  get_metrics y_true y_pred avg prec = inr m -> y_true <> [] -> (0 <= prec)%Z ->
  exists a p r f : Q,
    m = [ ("accuracy", Some a); ("precision", Some p);
          ("recall", Some r); ("f1", Some f) ] /\
    Forall (fun v => unit_interval v /\ rounded_to prec v) [a; p; r; f].
Proof.
  intros Hm Hne Hprec. pose proof (get_metrics_inr _ _ _ _ _ Hm) as Hlen.
  revert Hm. unfold get_metrics, precision_score, recall_score, f1_score.
  destruct (accuracy_score_defined y_true y_pred Hlen Hne) as (qa & -> & Ia & _).
  destruct (averaged_score_defined Precision avg y_true y_pred Hlen Hne) as (qp & -> & Ip & _).
  destruct (averaged_score_defined Recall avg y_true y_pred Hlen Hne) as (qr & -> & Ir & _).
  destruct (averaged_score_defined F1 avg y_true y_pred Hlen Hne) as (qf & -> & If & _).
  cbn [rbind].
  destruct (round_score qa prec Hprec Ia) as (a & -> & Ua & Ra & _).
  destruct (round_score qp prec Hprec Ip) as (p & -> & Up & Rp & _).
  destruct (round_score qr prec Hprec Ir) as (r & -> & Ur & Rr & _).
  destruct (round_score qf prec Hprec If) as (f & -> & Uf & Rf & _).
  intros [= <-]. exists a, p, r, f. split; [done|].
  repeat (apply Forall_cons; split; [done|]). constructor.
Qed.

(** X12. A run of [run_scikit_experiment] that returns: the label was
    'GaussianNB' or 'DecisionTree' (the latter built with seed 42); the
    classifier of that label was fitted on the train features and target of
    the split and asked for predictions on the test features; there is one
    prediction per test label, and the result is [get_metrics] of the test
    labels and the predictions, macro-averaged, to 3 decimal places; when
    the test set is not empty these are the four entries accuracy,
    precision, recall, f1, each in [0, 1]. The store, the output and the
    files are as before the call: nothing was printed or written. *)
Theorem run_scikit_experiment_returns
    (GaussianNB : classifier) (DecisionTreeClassifier : Z -> classifier)
    (concat : list object -> res DataFrame)
    (w w' : world) (data : loc) (clf_label : string) (m : list (string * cell)) :
  run_scikit_experiment GaussianNB DecisionTreeClassifier concat data clf_label w
    = (w', inr m) ->
  w' = w /\
  exists (clf : classifier) (model : fitted clf) (Xtr ytr Xte yte : object)
         (y_true y_pred : list Z),
    (clf_label = "GaussianNB" /\ clf = GaussianNB \/
     clf_label = "DecisionTree" /\ clf = DecisionTreeClassifier 42%Z) /\
    split_content (heap w) data Xtr ytr Xte yte /\
    clf_fit clf Xtr ytr = inr model /\
    clf_predict clf model Xte = inr y_pred /\
    labels_of yte = inr y_true /\
    length y_pred = length y_true /\
    get_metrics y_true y_pred Macro 3 = inr m /\
    (y_true <> [] ->
     exists a p r f : Q,
       m = [ ("accuracy", Some a); ("precision", Some p);
             ("recall", Some r); ("f1", Some f) ] /\
       Forall (fun v => unit_interval v /\ rounded_to 3 v) [a; p; r; f]).
Proof.
  unfold run_scikit_experiment. intros H.
  run_step H x1 w1 Hx1. apply dict_get2_inr in Hx1 as [-> (a & Ha & Px1)].
  run_step H y1 w1 Hy1. apply dict_get2_inr in Hy1 as [-> (a' & Ha' & Py1)].
  run_step H x2 w1 Hx2. apply dict_get2_inr in Hx2 as [-> (b & Hb & Px2)].
  run_step H y2 w1 Hy2. apply dict_get2_inr in Hy2 as [-> (b' & Hb' & Py2)].
  assert (a' = a) as -> by (by eapply points_inj).
  assert (b' = b) as -> by (by eapply points_inj).
  run_step H o1 w1 H1. apply load_inr in H1 as [-> H1].
  run_step H o2 w1 H2. apply load_inr in H2 as [-> H2].
  run_step H o3 w1 H3. apply load_inr in H3 as [-> H3].
  run_step H o4 w1 H4. apply load_inr in H4 as [-> H4].
  run_step H train_ds w1 Hc1. apply lift_inr in Hc1 as [-> Hc1].
  run_step H test_ds w1 Hc2. apply lift_inr in Hc2 as [-> Hc2].
  run_step H clf w1 Hclf.
  assert (Hsel : w1 = w /\ exists c, clf = Some c /\
            (clf_label = "GaussianNB" /\ c = GaussianNB \/
             clf_label = "DecisionTree" /\ c = DecisionTreeClassifier 42%Z)).
  { revert Hclf H. repeat case_bool_decide.
    - intros Hp _. apply mret_inr in Hp as [-> ->].
      split; [done|]. eexists. split; [done|]. by left.
    - intros Hp _. apply mret_inr in Hp as [-> ->].
      split; [done|]. eexists. split; [done|]. by right.
    - intros Hp. apply bind_inr in Hp as (u & w2 & _ & Hp).
      apply mret_inr in Hp as [-> ->]. discriminate. }
  destruct Hsel as (-> & c & -> & Hsel).
  run_step H model w1 Hfit. apply lift_inr in Hfit as [-> Hfit].
  run_step H y_pred w1 Hpred. apply lift_inr in Hpred as [-> Hpred].
  run_step H y_true w1 Htrue. apply lift_inr in Htrue as [-> Htrue].
  apply lift_inr in H as [-> Hm].
  split; [done|].
  exists c, model, o1, o2, o3, o4, y_true, y_pred.
  split; [done|]. split.
  { exists a, b, x1, y1, x2, y2. done. }
  split; [done|]. split; [done|]. split; [done|].
  split; [symmetry; by eapply get_metrics_inr|]. split; [done|].
  intros Hne. eapply get_metrics_bounds; [done|done|]. unfold default_prec. lia.
Qed.

Lemma run_scikit_experiment_returns_witness :
  let m := [ ("accuracy", Some (Qmake 0 1000)); ("precision", Some (Qmake 0 1000));
             ("recall", Some (Qmake 0 1000)); ("f1", Some (Qmake 0 1000)) ] in
  example_world = example_world /\
  exists (clf : classifier) (model : fitted clf) (Xtr ytr Xte yte : object)
         (y_true y_pred : list Z),
    ("GaussianNB" = "GaussianNB" /\ clf = example_classifier \/
     "GaussianNB" = "DecisionTree" /\ clf = example_classifier) /\
    split_content (heap example_world) 6 Xtr ytr Xte yte /\
    clf_fit clf Xtr ytr = inr model /\
    clf_predict clf model Xte = inr y_pred /\
    labels_of yte = inr y_true /\
    length y_pred = length y_true /\
    get_metrics y_true y_pred Macro 3 = inr m /\
    (y_true <> [] ->
     exists a p r f : Q,
       m = [ ("accuracy", Some a); ("precision", Some p);
             ("recall", Some r); ("f1", Some f) ] /\
       Forall (fun v => unit_interval v /\ rounded_to 3 v) [a; p; r; f]).
Proof.
  intros m.
  apply (run_scikit_experiment_returns example_classifier (fun _ => example_classifier)
           example_concat example_world example_world 6 "GaussianNB" m).
  vm_compute. reflexivity.
Defined.
